(** * M/M/1 queue simulation engine ([simulate_mm1_queue]) *)

(** Shallow embedding of [src/mm1_queue_simulation.py].

    - Python floats are modelled as exact rationals [Q]; [float('inf')],
      which only ever appears as [next_departure_time], is the [Inf]
      constructor of [ext].
    - numpy's process-wide generator is an abstract state [G]; a draw
      [np.random.exponential(scale)] multiplies [scale] by one draw of the
      standard exponential distribution, after rejecting a negative scale
      with [ValueError] (numpy's legacy [RandomState] does exactly this).
      [np.random.seed(seed)] replaces that state; an integer seed outside
      [0, 2**32 - 1] raises [ValueError] and leaves the state unchanged.
      The Python [random] module is seeded too (it accepts every integer)
      but never read, so it is not modelled.
    - the engine threads the generator and Python exceptions through the
      state/error monad [M].
    - the [while] loop is run with a fuel bound; running out of fuel is the
      extra outcome [OutOfFuel], which no Python run produces. *)

From Stdlib Require Import QArith ZArith List Bool Lia Lqa.
Import ListNotations.

Open Scope Q_scope.

Inductive py_error : Type :=
| ZeroDivisionError
| ValueError
| OutOfFuel.

(** A float that is either finite or [inf]. *)
Inductive ext : Type :=
| Fin (q : Q)
| Inf.

(** Python's [a < b] on floats. *)
Definition qltb (a b : Q) : bool := negb (Qle_bool b a).

(** [x > y] for [x] possibly infinite. *)
Definition ext_gtb (x : ext) (y : Q) : bool :=
  match x with
  | Fin q => qltb y q
  | Inf => true
  end.

(** Python dicts with integer keys, in insertion order. *)
Fixpoint dict_get (k : Z) (d : list (Z * Q)) (default : Q) : Q :=
  match d with
  | [] => default
  | (k', v) :: d' => if Z.eqb k k' then v else dict_get k d' default
  end.

Fixpoint dict_set (k : Z) (v : Q) (d : list (Z * Q)) : list (Z * Q) :=
  match d with
  | [] => [(k, v)]
  | (k', v') :: d' => if Z.eqb k k' then (k, v) :: d' else (k', v') :: dict_set k v d'
  end.

Definition dict_values (d : list (Z * Q)) : list Q := map snd d.

(** Python's builtin [sum] (left to right, starting at 0). *)
Definition py_sum (l : list Q) : Q := fold_left Qplus l 0.

(** [np.mean] of a non-empty list. *)
Definition np_mean (l : list Q) : Q := py_sum l / inject_Z (Z.of_nat (length l)).

(** A customer record [(arrival_time, service_start_time, departure_time)]. *)
Definition record : Type := (Q * Q * Q)%type.

Definition rec_arrival (r : record) : Q := let '(a, _, _) := r in a.
Definition rec_start (r : record) : Q := let '(_, s, _) := r in s.
Definition rec_departure (r : record) : Q := let '(_, _, d) := r in d.

(** The local variables of [simulate_mm1_queue] that live across loop
    iterations ([queue] is the deque of waiting arrival times). *)
Record sim_state : Type := mk_state {
  current_time : Q;
  server_busy : bool;
  server_start_time : Q;
  next_departure_time : ext;
  queue : list Q;
  customer_stats : list record;
  last_event_time : Q;
  state_time : list (Z * Q);
  current_state : Z;
  next_arrival_time : Q
}.

(** The dict returned by [simulate_mm1_queue]. *)
Record sim_result : Type := mk_result {
  total_customers : nat;
  completed_customers : nat;
  total_system_time : Q;
  total_queue_time : Q;
  server_busy_time : Q;
  average_system_time : Q;
  average_queue_time : Q;
  server_utilization : Q;
  average_system_length : Q;
  average_queue_length : Q;
  state_probabilities : list (Z * Q)
}.

(** A concrete generator for the examples: the state is the number of
    draws made, and the draws are read from a table (then 1 forever). *)
Definition table_exp (tbl : list Q) (n : nat) : Q * nat := (nth n tbl 1, S n).

Definition table_seed (s : Z) : nat := O.

(** A state where the pending arrival and departure are both at time 1. *)
Definition tie_state : sim_state :=
  {| current_time := 0; server_busy := true; server_start_time := 0;
     next_departure_time := Fin 1; queue := []; customer_stats := [(0, 0, 1)];
     last_event_time := 0; state_time := [(0%Z, 0)]; current_state := 1%Z;
     next_arrival_time := 1 |}.

(** The draws of the examples. *)
Definition sample_draws : list Q := [1#2; 1#4; 1#3; 2; 1#5].

(** [mm1_queue_analysis.py], line 29: the theoretical waiting time
    [rho / (mu * (1 - rho))] at one point of [rho_curve]. *)
Definition wq_theoretical (mu rho : Q) : Q := rho / (mu * (1 - rho)).

(** [np.linspace(start, stop, num)] (line 28): [i * step + start] for
    [i < num] with [step = (stop - start) / (num - 1)], the last point set
    to [stop]; a single point is [start]. *)
Definition linspace (start stop : Q) (num : nat) : list Q :=
  match num with
  | O => []
  | S O => [start]
  | _ => let step := (stop - start) / inject_Z (Z.of_nat (num - 1)) in
         map (fun i => if Nat.eqb i (num - 1) then stop
                       else inject_Z (Z.of_nat i) * step + start) (seq 0 num)
  end.

(** The integer seeds [np.random.seed] accepts: [0 <= seed <= 2**32 - 1]. *)
Definition seed_ok (s : Z) : bool := (0 <=? s)%Z && (s <? 2 ^ 32)%Z.

(** [seed is None] or an accepted seed. *)
Definition valid_seed (seed : option Z) : bool :=
  match seed with
  | Some s => seed_ok s
  | None => true
  end.

Section Engine.

(** numpy's global generator state, one standard-exponential draw, and
    [np.random.seed]. *)
Variable G : Type.
Variable standard_exponential : G -> Q * G.
Variable np_random_seed : Z -> G.

Definition M (A : Type) : Type := G -> (py_error + A) * G.

Definition ret {A} (x : A) : M A := fun g => (inr x, g).

Definition raise {A} (e : py_error) : M A := fun g => (inl e, g).

Definition bind {A B} (c : M A) (k : A -> M B) : M B :=
  fun g => match c g with
           | (inl e, g') => (inl e, g')
           | (inr x, g') => k x g'
           end.

Local Notation "x <- c ;; k" := (bind c (fun x => k))
  (at level 61, c at next level, right associativity).

(** Python's float division [x / y]. *)
Definition py_div (x y : Q) : M Q :=
  if Qeq_bool y 0 then raise ZeroDivisionError else ret (x / y).

(** [np.random.exponential(scale=scale)]. *)
Definition exponential (scale : Q) : M Q :=
  fun g => if qltb scale 0 then (inl ValueError, g)
           else let (e, g') := standard_exponential g in (inr (scale * e), g').

(** [if seed is not None: np.random.seed(seed); random.seed(seed)]. *)
Definition seed_rng (seed : option Z) : M unit :=
  fun g => match seed with
           | Some s => if seed_ok s then (inr tt, np_random_seed s) else (inl ValueError, g)
           | None => (inr tt, g)
           end.

Variables arrival_rate service_rate simulation_time : Q.

(** Lines 11-24, with the first arrival time already drawn. *)
Definition init_state (first_arrival : Q) : sim_state :=
  {| current_time := 0; server_busy := false; server_start_time := 0;
     next_departure_time := Inf; queue := []; customer_stats := [];
     last_event_time := 0; state_time := [(0%Z, 0)]; current_state := 0%Z;
     next_arrival_time := first_arrival |}.

(** Lines 30-52: process an arrival. *)
Definition process_arrival (st : sim_state) : M sim_state :=
  let t := next_arrival_time st in
  let cs := current_state st in
  let st_time := dict_set cs (dict_get cs (state_time st) 0 + (t - last_event_time st))
                          (state_time st) in
  scale <- py_div 1 arrival_rate;;
  ia <- exponential scale;;
  let next_arr := t + ia in
  if negb (server_busy st) then
    scale_s <- py_div 1 service_rate;;
    service_time <- exponential scale_s;;
    let nd := t + service_time in
    ret {| current_time := t; server_busy := true; server_start_time := t;
           next_departure_time := Fin nd; queue := queue st;
           customer_stats := customer_stats st ++ [(t, t, nd)];
           last_event_time := t; state_time := st_time; current_state := (cs + 1)%Z;
           next_arrival_time := next_arr |}
  else
    ret {| current_time := t; server_busy := server_busy st;
           server_start_time := server_start_time st;
           next_departure_time := next_departure_time st; queue := queue st ++ [t];
           customer_stats := customer_stats st;
           last_event_time := t; state_time := st_time; current_state := (cs + 1)%Z;
           next_arrival_time := next_arr |}.

(** Lines 54-75: process a departure at the (finite) time [d]. *)
Definition process_departure (d : Q) (st : sim_state) : M sim_state :=
  let cs := current_state st in
  let st_time := dict_set cs (dict_get cs (state_time st) 0 + (d - last_event_time st))
                          (state_time st) in
  let cs' := (cs - 1)%Z in
  match queue st with
  | arrival_time :: q' =>
      scale_s <- py_div 1 service_rate;;
      service_time <- exponential scale_s;;
      let nd := d + service_time in
      ret {| current_time := d; server_busy := server_busy st; server_start_time := d;
             next_departure_time := Fin nd; queue := q';
             customer_stats := customer_stats st ++ [(arrival_time, d, nd)];
             last_event_time := d; state_time := st_time; current_state := cs';
             next_arrival_time := next_arrival_time st |}
  | [] =>
      ret {| current_time := d; server_busy := false;
             server_start_time := server_start_time st;
             next_departure_time := Inf; queue := [];
             customer_stats := customer_stats st;
             last_event_time := d; state_time := st_time; current_state := cs';
             next_arrival_time := next_arrival_time st |}
  end.

(** Line 29: [if next_arrival_time <= next_departure_time]. *)
Definition loop_body (st : sim_state) : M sim_state :=
  match next_departure_time st with
  | Fin d => if Qle_bool (next_arrival_time st) d then process_arrival st
             else process_departure d st
  | Inf => process_arrival st (* a finite [next_arrival_time] is [<= inf] *)
  end.

(** Line 27: [while current_time < simulation_time]. *)
Fixpoint run_loop (fuel : nat) (st : sim_state) : M sim_state :=
  if qltb (current_time st) simulation_time then
    match fuel with
    | O => raise OutOfFuel
    | S fuel' => st' <- loop_body st;; run_loop fuel' st'
    end
  else ret st.

(** Line 78: the final ledger update. *)
Definition final_update (st : sim_state) : sim_state :=
  let cs := current_state st in
  {| current_time := current_time st; server_busy := server_busy st;
     server_start_time := server_start_time st;
     next_departure_time := next_departure_time st; queue := queue st;
     customer_stats := customer_stats st; last_event_time := last_event_time st;
     state_time := dict_set cs (dict_get cs (state_time st) 0
                                + (simulation_time - last_event_time st)) (state_time st);
     current_state := cs; next_arrival_time := next_arrival_time st |}.

(** Lines 5-78: seeding, the first arrival, the event loop, the final
    ledger update. *)
Definition simulate_state (fuel : nat) (seed : option Z) : M sim_state :=
  _ <- seed_rng seed;;
  scale <- py_div 1 arrival_rate;;
  first_arrival <- exponential scale;;
  st <- run_loop fuel (init_state first_arrival);;
  ret (final_update st).

Definition completed (r : record) : bool := Qle_bool (rec_departure r) simulation_time.

(** Lines 80-128: the statistics. *)
Definition reduce (st : sim_state) : M sim_result :=
  let stats := customer_stats st in
  let done := filter completed stats in
  let system_times := map (fun r => rec_departure r - rec_arrival r) done in
  let queue_times := map (fun r => rec_start r - rec_arrival r) done in
  let busy0 := py_sum (map (fun r => rec_departure r - rec_start r) done) in
  let busy := if server_busy st && ext_gtb (next_departure_time st) simulation_time
              then busy0 + (simulation_time - server_start_time st) else busy0 in
  let avg_system_time := match system_times with [] => 0 | _ => np_mean system_times end in
  let avg_queue_time := match queue_times with [] => 0 | _ => np_mean queue_times end in
  utilization <- py_div busy simulation_time;;
  avg_system_length <- py_div (py_sum (map (fun nt => inject_Z (fst nt) * snd nt)
                                           (state_time st))) simulation_time;;
  avg_queue_length <- py_div (py_sum (map (fun nt => inject_Z (Z.max 0 (fst nt - 1)) * snd nt)
                                          (state_time st))) simulation_time;;
  let probs := map (fun nt => (fst nt, snd nt / simulation_time)) (state_time st) in
  ret {| total_customers := length stats; completed_customers := length done;
         total_system_time := py_sum system_times; total_queue_time := py_sum queue_times;
         server_busy_time := busy; average_system_time := avg_system_time;
         average_queue_time := avg_queue_time; server_utilization := utilization;
         average_system_length := avg_system_length;
         average_queue_length := avg_queue_length; state_probabilities := probs |}.

(** [simulate_mm1_queue(arrival_rate, service_rate, simulation_time, seed)]. *)
Definition simulate (fuel : nat) (seed : option Z) : M sim_result :=
  st <- simulate_state fuel seed;; reduce st.

(** Which branch line 29 takes. *)
Definition is_arrival (st : sim_state) : bool :=
  match next_departure_time st with
  | Fin d => Qle_bool (next_arrival_time st) d
  | Inf => true
  end.

(** The states the event loop passes through: the initial state, and the
    result of one loop iteration from a state where the loop condition
    holds. *)
Inductive reach : sim_state -> Prop :=
| reach_init (first_arrival : Q) : reach (init_state first_arrival)
| reach_step (st st' : sim_state) (g g' : G) :
    reach st -> qltb (current_time st) simulation_time = true ->
    loop_body st g = (inr st', g') -> reach st'.

(** Sum of the ledger entries. *)
Definition ledger_sum (st : sim_state) : Q := py_sum (dict_values (state_time st)).

Definition ledger_inv (st : sim_state) : Prop := ledger_sum st == last_event_time st.

Definition shape_inv (st : sim_state) : Prop :=
  (server_busy st = false -> next_departure_time st = Inf /\ queue st = []) /\
  (server_busy st = true -> exists d, next_departure_time st = Fin d) /\
  current_state st = (Z.of_nat (length (queue st)) + (if server_busy st then 1 else 0))%Z.

Definition rec_ok (r : record) : Prop :=
  rec_arrival r <= rec_start r /\ rec_start r <= rec_departure r.

Definition departed_by (t : Q) (r : record) : Prop := rec_departure r <= t.

Definition time_inv (st : sim_state) : Prop :=
  current_time st <= next_arrival_time st /\
  Forall (fun q => q <= current_time st) (queue st) /\
  Forall rec_ok (customer_stats st) /\
  (server_busy st = false -> Forall (departed_by (current_time st)) (customer_stats st)) /\
  (server_busy st = true ->
     exists pre r, customer_stats st = pre ++ [r] /\
       next_departure_time st = Fin (rec_departure r) /\
       current_time st <= rec_departure r /\
       Forall (departed_by (current_time st)) pre).

(** Records whose departure lies beyond the horizon. *)
Definition count_over (st : sim_state) : nat :=
  length (filter (fun r => negb (completed r)) (customer_stats st)).

(** The invariant carried through the loop. *)
Definition run_inv (st : sim_state) : Prop :=
  shape_inv st /\ time_inv st /\ (count_over st <= 2)%nat.

(** Loop states reached from a first arrival time drawn by the generator
    (such a draw is never negative). *)
Inductive run_reach : sim_state -> Prop :=
| run_reach_init (first_arrival : Q) : 0 <= first_arrival -> run_reach (init_state first_arrival)
| run_reach_step (st st' : sim_state) (g g' : G) :
    run_reach st -> qltb (current_time st) simulation_time = true ->
    loop_body st g = (inr st', g') -> run_reach st'.

(** [R] holds between every two neighbours of a list. *)
Fixpoint chain {A} (R : A -> A -> Prop) (l : list A) : Prop :=
  match l with
  | [] => True
  | x :: t => match t with [] => True | y :: _ => R x y end /\ chain R t
  end.

(** The arrival times of the customers that entered service, followed by
    those of the customers still in the line. *)
Definition arrival_order (st : sim_state) : list Q :=
  map rec_arrival (customer_stats st) ++ queue st.

(** [r1]'s service ends before [r2]'s begins. *)
Definition served_before (r1 r2 : record) : Prop := rec_departure r1 <= rec_start r2.

(** The keys of [state_time] are [0, 1, ..., n-1] in insertion order. *)
Definition ledger_keys (d : list (Z * Q)) (n : nat) : Prop :=
  map fst d = map Z.of_nat (seq 0 n).

Definition order_inv (st : sim_state) : Prop :=
  chain Qle (arrival_order st) /\
  Forall (fun q => 0 <= q <= current_time st) (arrival_order st) /\
  chain served_before (customer_stats st) /\
  Forall (fun kv => 0 <= snd kv) (state_time st) /\
  last_event_time st = current_time st /\
  0 <= current_time st /\
  (server_busy st = true -> exists pre r, customer_stats st = pre ++ [r] /\
                                          rec_start r = server_start_time st) /\
  exists n, ledger_keys (state_time st) n /\ (0 <= current_state st <= Z.of_nat n)%Z.

(** [max(d.keys())]; [None] stands for the [ValueError] of an empty dict. *)
Fixpoint max_key_from (m : Z) (d : list (Z * Q)) : Z :=
  match d with
  | [] => m
  | (k, _) :: d' => max_key_from (Z.max m k) d'
  end.

Definition dict_max_key (d : list (Z * Q)) : option Z :=
  match d with
  | [] => None
  | (k, _) :: d' => Some (max_key_from k d')
  end.

(** [range(n)]. *)
Definition py_range (n : Z) : list Z := map Z.of_nat (seq 0 (Z.to_nat n)).

(** [run_mm1_simulation] (lines 130-165).  What it prints is modelled by
    the values printed for the distribution (lines 159-163), one pair
    [(i, prob)] per line; of the other printed lines only the division
    [arrival_rate/service_rate] of line 143, which can raise, is kept. *)
Definition run_mm1_simulation (fuel : nat) (seed : option Z) : M (sim_result * list (Z * Q)) :=
  results <- simulate fuel seed;;
  _ <- py_div arrival_rate service_rate;;
  match dict_max_key (state_probabilities results) with
  | None => raise ValueError
  | Some max_state =>
      ret (results, map (fun i => (i, dict_get i (state_probabilities results) 0))
                        (py_range (max_state + 1)))
  end.

(** ** Properties of the monad and of the Python primitives *)

Lemma bind_inr {A B} (c : M A) (k : A -> M B) g x g' :
  bind c k g = (inr x, g') -> exists y g1, c g = (inr y, g1) /\ k y g1 = (inr x, g').
Proof. unfold bind. destruct (c g) as [[e|y] g1]; [discriminate|eauto]. Qed.

Lemma ret_inr {A} (x y : A) g g' : ret x g = (inr y, g') -> y = x /\ g' = g.
Proof. unfold ret. intro H. injection H. auto. Qed.

Lemma py_div_inr x y q g g' : py_div x y g = (inr q, g') -> q = x / y /\ g' = g /\ ~ y == 0.
Proof.
  unfold py_div. case_eq (Qeq_bool y 0); intros Hy H.
  - discriminate.
  - apply ret_inr in H. destruct H. split; [auto|split; [auto|]].
    intro E. apply Qeq_bool_iff in E. congruence.
Qed.

Lemma exponential_inr s v g g' :
  exponential s g = (inr v, g') -> 0 <= s /\ exists e, v = s * e /\ standard_exponential g = (e, g').
Proof.
  unfold exponential, qltb. case_eq (Qle_bool 0 s); intros Hs; simpl.
  - destruct (standard_exponential g) as [e g1] eqn:E. intro H. injection H. intros; subst.
    split; [apply Qle_bool_iff; auto | eauto].
  - discriminate.
Qed.

Lemma py_sum_acc l a : fold_left Qplus l a == a + py_sum l.
Proof.
  unfold py_sum. revert a. induction l as [|x l IH]; intro a; simpl.
  - ring.
  - rewrite (IH (a + x)), (IH (0 + x)). ring.
Qed.

Lemma py_sum_nil : py_sum [] == 0.
Proof. reflexivity. Qed.

Lemma py_sum_cons x l : py_sum (x :: l) == x + py_sum l.
Proof. unfold py_sum at 1. simpl. rewrite py_sum_acc. ring. Qed.

Lemma dict_set_sum k v d :
  py_sum (dict_values (dict_set k v d)) == py_sum (dict_values d) - dict_get k d 0 + v.
Proof.
  induction d as [|[k' v'] d IH]; simpl.
  - unfold dict_values. simpl. rewrite py_sum_cons, py_sum_nil. ring.
  - unfold dict_values in *. destruct (Z.eqb k k'); simpl.
    + rewrite !py_sum_cons. ring.
    + rewrite !py_sum_cons, IH. ring.
Qed.

(** Peels binds, divisions, draws and returns off a hypothesis
    [c g = (inr x, g')]. *)
Ltac peel :=
  repeat match goal with
  | H : bind _ _ _ = (inr _, _) |- _ =>
      let y := fresh "y" in let g1 := fresh "g" in let H1 := fresh "H" in
      apply bind_inr in H; destruct H as (y & g1 & H1 & H)
  | H : py_div _ _ _ = (inr _, _) |- _ =>
      let E := fresh "E" in let Eg := fresh "Eg" in let Nz := fresh "Nz" in
      apply py_div_inr in H; destruct H as (E & Eg & Nz); subst
  | H : ret _ _ = (inr _, _) |- _ =>
      let E := fresh "E" in let Eg := fresh "Eg" in
      apply ret_inr in H; destruct H as (E & Eg); subst
  end.

(** Splits a hypothesis [loop_body st g = (inr st', g')] into the four
    branches of lines 29-75. *)
Ltac body_cases H :=
  unfold loop_body in H;
  let Ed := fresh "Ed" in let Ec := fresh "Ec" in
  destruct (next_departure_time _) eqn:Ed;
  [destruct (Qle_bool _ _) eqn:Ec|];
  unfold process_arrival, process_departure in H;
  repeat (peel; cbn beta iota zeta in H;
          match goal with
          | H : (if negb ?b then _ else _) _ = _ |- _ =>
              let Eb := fresh "Eb" in destruct b eqn:Eb; cbn beta iota delta [negb] in H
          | H : (match ?q with [] => _ | _ :: _ => _ end) _ = _ |- _ =>
              let Eq := fresh "Eq" in destruct q eqn:Eq; cbn beta iota in H
          end);
  peel.

Lemma loop_body_ledger st g st' g' :
  ledger_inv st -> loop_body st g = (inr st', g') -> ledger_inv st'.
Proof.
  intros Hinv H. body_cases H; unfold ledger_inv, ledger_sum in *; simpl;
    rewrite dict_set_sum, Hinv; ring.
Qed.

Lemma run_loop_preserves (P : sim_state -> Prop) :
  (forall st g st' g', P st -> qltb (current_time st) simulation_time = true ->
     loop_body st g = (inr st', g') -> P st') ->
  forall fuel st g st' g', P st -> run_loop fuel st g = (inr st', g') ->
    P st' /\ qltb (current_time st') simulation_time = false.
Proof.
  intros HP fuel. induction fuel as [|fuel IH]; intros st g st' g' Hst H; simpl in H;
    destruct (qltb (current_time st) simulation_time) eqn:Ec.
  - unfold raise in H. discriminate.
  - peel. auto.
  - peel. eapply IH; [|eassumption]. eapply HP; eauto.
  - peel. auto.
Qed.

Lemma loop_body_shape st g st' g' :
  shape_inv st -> loop_body st g = (inr st', g') -> shape_inv st'.
Proof.
  intros (I1 & I2 & I3) H. body_cases H; unfold shape_inv; simpl.
  all: try (destruct (server_busy st) eqn:Eb;
            [|destruct (I1 eq_refl) as [Hd _]; congruence]).
  all: try (destruct (I2 eq_refl) as [d Hd]; congruence).
  all: repeat split; intros; try discriminate; eauto.
  all: try rewrite length_app; simpl in *; lia.
Qed.

(** The exponential draws are non-negative (the contract of the
    generator). *)
Hypothesis standard_exponential_nonneg : forall g, 0 <= fst (standard_exponential g).

Lemma exponential_nonneg s v g g' : exponential s g = (inr v, g') -> 0 <= v.
Proof.
  intro H. apply exponential_inr in H. destruct H as (Hs & e & -> & He).
  pose proof (standard_exponential_nonneg g) as Hn. rewrite He in Hn. simpl in Hn.
  apply Qmult_le_0_compat; assumption.
Qed.

Lemma Forall_le_mono l a b :
  Forall (fun q => q <= a) l -> a <= b -> Forall (fun q => q <= b) l.
Proof.
  intros H Hab. eapply Forall_impl; [|exact H]. intros q Hq. simpl in Hq. eapply Qle_trans; eauto.
Qed.

Lemma departed_by_mono l a b :
  Forall (departed_by a) l -> a <= b -> Forall (departed_by b) l.
Proof.
  intros H Hab. eapply Forall_impl; [|exact H]. unfold departed_by. intros r Hr.
  eapply Qle_trans; eauto.
Qed.

Lemma Qle_bool_false x y : Qle_bool x y = false -> y < x.
Proof.
  intro H. apply Qnot_le_lt. intro Hle. apply Qle_bool_iff in Hle. congruence.
Qed.

Lemma loop_body_time st g st' g' :
  shape_inv st -> time_inv st -> loop_body st g = (inr st', g') -> time_inv st'.
Proof.
  intros (S1 & S2 & S3) (T1 & T2 & T3 & T4 & T5) H.
  body_cases H;
    repeat match goal with
    | H : exponential _ _ = (inr _, _) |- _ => apply exponential_nonneg in H
    end;
    unfold time_inv; simpl.
  (* an idle server has no departure pending, a busy one has one *)
  all: try (destruct (S1 eq_refl) as [Hd _]; discriminate).
  all: try (destruct (S2 eq_refl) as [d Hd]; discriminate).
  - (* arrival, server busy: the customer joins the line *)
    apply Qle_bool_iff in Ec.
    destruct (T5 eq_refl) as (pre & r & Hs & Hd & Hct & Hpre). injection Hd as Hq.
    split; [|split; [|split; [|split]]].
    + lra.
    + apply Forall_app. split; [eapply Forall_le_mono; eauto|].
      apply Forall_cons; [lra|apply Forall_nil].
    + auto.
    + discriminate.
    + intros _. exists pre, r. rewrite Ed, <- Hq. repeat split; auto.
      eapply departed_by_mono; eauto.
  - (* departure, empty line: the server goes idle *)
    apply Qle_bool_false in Ec.
    destruct (server_busy st) eqn:Eb; [|destruct (S1 eq_refl); discriminate].
    destruct (T5 eq_refl) as (pre & r & Hs & Hd & Hct & Hpre). injection Hd as Hq. subst q.
    split; [|split; [|split; [|split]]].
    + lra.
    + apply Forall_nil.
    + auto.
    + intros _. rewrite Hs. apply Forall_app. split.
      * eapply departed_by_mono; eauto.
      * apply Forall_cons; [unfold departed_by; lra|apply Forall_nil].
    + discriminate.
  - (* departure, non-empty line: the head of the line enters service *)
    apply Qle_bool_false in Ec.
    destruct (server_busy st) eqn:Eb; [|destruct (S1 eq_refl); discriminate].
    destruct (T5 eq_refl) as (pre & r & Hs & Hd & Hct & Hpre). injection Hd as Hq. subst q.
    inversion T2 as [|a0 l0 Ha Hl]; subst.
    split; [|split; [|split; [|split]]].
    + lra.
    + eapply Forall_le_mono; eauto; try lra.
    + apply Forall_app. split; [auto|].
      apply Forall_cons; [unfold rec_ok; simpl; split; lra|apply Forall_nil].
    + discriminate.
    + intros _. exists (customer_stats st), (q0, rec_departure r, rec_departure r + y0). simpl.
      repeat split; [lra|].
      rewrite Hs. apply Forall_app. split.
      * eapply departed_by_mono; eauto; try lra.
      * apply Forall_cons; [unfold departed_by; lra|apply Forall_nil].
  - (* arrival, server idle: service starts at once *)
    split; [|split; [|split; [|split]]].
    + lra.
    + eapply Forall_le_mono; eauto.
    + apply Forall_app. split; [auto|].
      apply Forall_cons; [unfold rec_ok; simpl; split; lra|apply Forall_nil].
    + discriminate.
    + intros _. exists (customer_stats st), (next_arrival_time st, next_arrival_time st,
                                             next_arrival_time st + y1).
      simpl. repeat split; [lra|]. eapply departed_by_mono; eauto.
Qed.

(** ** From the loop to the whole run *)

Lemma simulate_state_inr fuel seed g st g' :
  simulate_state fuel seed g = (inr st, g') ->
  exists a g0 g1 st0, exponential (1 / arrival_rate) g0 = (inr a, g1) /\
    run_loop fuel (init_state a) g1 = (inr st0, g') /\ st = final_update st0.
Proof.
  unfold simulate_state. intro H. peel. eauto 10.
Qed.

Lemma simulate_inr fuel seed g r g' :
  simulate fuel seed g = (inr r, g') ->
  exists st g1, simulate_state fuel seed g = (inr st, g1) /\ reduce st g1 = (inr r, g').
Proof. unfold simulate. intro H. peel. eauto. Qed.

Lemma reduce_inr st g r g' :
  reduce st g = (inr r, g') ->
  ~ simulation_time == 0 /\
  total_customers r = length (customer_stats st) /\
  completed_customers r = length (filter completed (customer_stats st)) /\
  state_probabilities r = map (fun nt => (fst nt, snd nt / simulation_time)) (state_time st).
Proof. unfold reduce. intro H. peel. simpl. auto. Qed.

Lemma init_ledger a : ledger_inv (init_state a).
Proof. reflexivity. Qed.

Lemma init_shape a : shape_inv (init_state a).
Proof. unfold shape_inv. simpl. repeat split; intros; try discriminate. Qed.

Lemma final_update_ledger st :
  ledger_inv st -> ledger_sum (final_update st) == simulation_time.
Proof. unfold ledger_inv, ledger_sum. simpl. intro Hinv. rewrite dict_set_sum, Hinv. ring. Qed.

Lemma py_sum_div d h :
  py_sum (dict_values (map (fun nt => (fst nt, snd nt / h)) d)) == py_sum (dict_values d) / h.
Proof.
  induction d as [|[k v] d IH]; unfold dict_values in *; simpl.
  - reflexivity.
  - rewrite !py_sum_cons, IH. unfold Qdiv. ring.
Qed.

Lemma reach_shape st : reach st -> shape_inv st.
Proof.
  induction 1 as [a|st st' g g' Hr IH Hc Hb].
  - apply init_shape.
  - eapply loop_body_shape; eauto.
Qed.

Lemma loop_body_count st g st' g' :
  loop_body st g = (inr st', g') ->
  current_state st' = (current_state st + if is_arrival st then 1 else -1)%Z.
Proof.
  unfold is_arrival. intro H. body_cases H; simpl; rewrite ?Ed, ?Ec; reflexivity.
Qed.

Lemma init_time a : 0 <= a -> time_inv (init_state a).
Proof.
  intro Ha. unfold time_inv. simpl. repeat split; try discriminate; auto.
Qed.

Lemma loop_body_stats st g st' g' :
  loop_body st g = (inr st', g') ->
  customer_stats st' = customer_stats st \/ exists x, customer_stats st' = customer_stats st ++ [x].
Proof. intro H. body_cases H; simpl; eauto. Qed.

Lemma completed_before t r :
  departed_by t r -> t < simulation_time -> completed r = true.
Proof.
  unfold departed_by, completed. intros Hr Ht. apply Qle_bool_iff.
  apply Qle_trans with t; [exact Hr|apply Qlt_le_weak; exact Ht].
Qed.

Lemma filter_over_nil t l :
  Forall (departed_by t) l -> t < simulation_time -> filter (fun r => negb (completed r)) l = [].
Proof.
  induction 1 as [|r l Hr Hl IH]; intro Ht; simpl; [reflexivity|].
  rewrite (completed_before t r Hr Ht). simpl. auto.
Qed.

Lemma qltb_true a b : qltb a b = true -> a < b.
Proof. unfold qltb. intro H. apply Qle_bool_false. destruct (Qle_bool b a); simpl in *; congruence. Qed.

(** While the loop condition holds, at most one record (the one in
    service) can depart after the horizon. *)
Lemma count_over_le1 st :
  time_inv st -> qltb (current_time st) simulation_time = true -> (count_over st <= 1)%nat.
Proof.
  intros (_ & _ & _ & T4 & T5) Hc. apply qltb_true in Hc. unfold count_over.
  destruct (server_busy st).
  - destruct (T5 eq_refl) as (pre & r & -> & _ & _ & Hpre).
    rewrite filter_app, length_app, (filter_over_nil _ _ Hpre Hc). simpl.
    destruct (negb (completed r)); simpl; lia.
  - rewrite (filter_over_nil _ _ (T4 eq_refl) Hc). simpl. lia.
Qed.

Lemma length_filter_split {A} (f : A -> bool) l :
  length l = (length (filter f l) + length (filter (fun x => negb (f x)) l))%nat.
Proof. induction l as [|x l IH]; simpl; [reflexivity|]. destruct (f x); simpl; lia. Qed.

Lemma loop_body_run_inv st g st' g' :
  run_inv st -> qltb (current_time st) simulation_time = true ->
  loop_body st g = (inr st', g') -> run_inv st'.
Proof.
  intros (Hs & Ht & _) Hc Hb. split; [eapply loop_body_shape; eauto|].
  split; [eapply loop_body_time; eauto|].
  pose proof (count_over_le1 st Ht Hc) as H1. unfold count_over in *.
  destruct (loop_body_stats _ _ _ _ Hb) as [-> | [x ->]]; [lia|].
  rewrite filter_app, length_app. simpl. destruct (negb (completed x)); simpl; lia.
Qed.

Lemma simulate_state_run_inv fuel seed g st g' :
  simulate_state fuel seed g = (inr st, g') -> run_inv st.
Proof.
  intro H. destruct (simulate_state_inr _ _ _ _ _ H) as (a & g0 & g1 & st0 & Ha & Hl & ->).
  apply exponential_nonneg in Ha.
  assert (Hi : run_inv (init_state a)).
  { split; [apply init_shape|]. split; [apply init_time; exact Ha|]. unfold count_over. simpl. lia. }
  destruct (run_loop_preserves run_inv loop_body_run_inv _ _ _ _ _ Hi Hl) as [Hr _].
  exact Hr.
Qed.

(** ** Evaluating the error paths *)

Lemma bind_inl_eq {A B} (c : M A) (k : A -> M B) g e g' :
  c g = (inl e, g') -> bind c k g = (inl e, g').
Proof. unfold bind. intros ->. reflexivity. Qed.

Lemma bind_inr_eq {A B} (c : M A) (k : A -> M B) g x g' :
  c g = (inr x, g') -> bind c k g = k x g'.
Proof. unfold bind. intros ->. reflexivity. Qed.

Lemma py_div_ok x y g : ~ y == 0 -> py_div x y g = (inr (x / y), g).
Proof.
  unfold py_div. intro Hy. destruct (Qeq_bool y 0) eqn:E; [|reflexivity].
  apply Qeq_bool_iff in E. contradiction.
Qed.






Lemma qltb_false a b : b <= a -> qltb a b = false.
Proof. unfold qltb. intro H. apply Qle_bool_iff in H. rewrite H. reflexivity. Qed.





Lemma seed_rng_bad seed g : valid_seed seed = false -> seed_rng seed g = (inl ValueError, g).
Proof. destruct seed; simpl; [intros ->|discriminate]; reflexivity. Qed.





(** ** The claims *)

(** C1: in every run that returns a result, the ledger entries (the
    values of [state_time] after the final update of line 78) sum to
    the horizon, and the values of [state_probabilities] sum to 1
    (exactly, in rational arithmetic). *)
Theorem ledger_and_probabilities_sum fuel seed g r g' :
  simulate fuel seed g = (inr r, g') ->
  exists st g1, simulate_state fuel seed g = (inr st, g1) /\
    ledger_sum st == simulation_time /\
    state_probabilities r = map (fun nt => (fst nt, snd nt / simulation_time)) (state_time st) /\
    py_sum (dict_values (state_probabilities r)) == 1.
Proof.
  intro H. destruct (simulate_inr _ _ _ _ _ H) as (st & g1 & Hs & Hr).
  destruct (reduce_inr _ _ _ _ Hr) as (Hh & _ & _ & Hp).
  destruct (simulate_state_inr _ _ _ _ _ Hs) as (a & g0 & g2 & st0 & _ & Hl & ->).
  destruct (run_loop_preserves ledger_inv (fun st g st' g' Hi _ Hb => loop_body_ledger st g st' g' Hi Hb)
              _ _ _ _ _ (init_ledger a) Hl) as [Hinv _].
  pose proof (final_update_ledger _ Hinv) as Hsum.
  exists (final_update st0), g1. split; [exact Hs|]. split; [exact Hsum|]. split; [exact Hp|].
  rewrite Hp, py_sum_div. unfold ledger_sum in Hsum. rewrite Hsum. field. exact Hh.
Qed.

(** C5: the event loop processes an arrival when [next_arrival_time]
    equals [next_departure_time] (and whenever it is not later), and a
    departure exactly when [next_departure_time] is strictly earlier;
    with no departure pending it processes an arrival. *)
Theorem arrival_wins_ties st :
  (forall d, next_departure_time st = Fin d -> d == next_arrival_time st ->
     loop_body st = process_arrival st) /\
  (forall d, next_departure_time st = Fin d -> next_arrival_time st <= d ->
     loop_body st = process_arrival st) /\
  (forall d, next_departure_time st = Fin d -> d < next_arrival_time st ->
     loop_body st = process_departure d st) /\
  (next_departure_time st = Inf -> loop_body st = process_arrival st).
Proof.
  unfold loop_body. split; [|split; [|split]]; intros; repeat match goal with
    | H : next_departure_time st = _ |- _ => rewrite H end.
  - replace (Qle_bool (next_arrival_time st) d) with true; [reflexivity|].
    symmetry. apply Qle_bool_iff. rewrite H0. apply Qle_refl.
  - replace (Qle_bool (next_arrival_time st) d) with true; [reflexivity|].
    symmetry. apply Qle_bool_iff. assumption.
  - replace (Qle_bool (next_arrival_time st) d) with false; [reflexivity|].
    symmetry. apply not_true_iff_false. rewrite Qle_bool_iff. apply Qlt_not_le. assumption.
  - reflexivity.
Qed.

(** C6: with a seed that [np.random.seed] accepts, the whole result of
    [simulate_mm1_queue] (every field, and the generator state left
    behind) does not depend on the generator state before the call, so
    two calls with the same parameters and the same seed return the same
    thing; with any seed, two calls that both return a result return the
    same result.  A seed [np.random.seed] refuses raises [ValueError] and
    leaves the generator as it was. *)
Theorem same_seed_same_result fuel s g1 g2 :
  (seed_ok s = true -> simulate fuel (Some s) g1 = simulate fuel (Some s) g2) /\
  (forall r1 r2 g1' g2', simulate fuel (Some s) g1 = (inr r1, g1') ->
     simulate fuel (Some s) g2 = (inr r2, g2') -> r1 = r2 /\ g1' = g2') /\
  (seed_ok s = false -> simulate fuel (Some s) g1 = (inl ValueError, g1)).
Proof.
  assert (Hok : seed_ok s = true -> simulate fuel (Some s) g1 = simulate fuel (Some s) g2).
  { intro Hs. unfold simulate, simulate_state, bind at 1 2, bind at 1 2, seed_rng.
    rewrite Hs. reflexivity. }
  assert (Hbad : forall g, seed_ok s = false -> simulate fuel (Some s) g = (inl ValueError, g)).
  { intros g Hs. unfold simulate, simulate_state. apply bind_inl_eq. apply bind_inl_eq.
    apply (seed_rng_bad (Some s)). exact Hs. }
  split; [exact Hok|split; [|apply Hbad]].
  intros r1 r2 g1' g2' H1 H2. destruct (seed_ok s) eqn:Hs.
  - rewrite (Hok eq_refl), H2 in H1. injection H1 as -> ->. auto.
  - rewrite (Hbad g1 eq_refl) in H1. discriminate.
Qed.

(** C7: the population count is 0 initially, each loop iteration adds 1
    when it processes an arrival and subtracts 1 when it processes a
    departure, and it is never negative in any state of the loop. *)
Theorem population_changes_by_one :
  (forall a, current_state (init_state a) = 0%Z) /\
  (forall st g st' g', loop_body st g = (inr st', g') ->
     current_state st' = (current_state st + if is_arrival st then 1 else -1)%Z) /\
  (forall st, reach st -> (0 <= current_state st)%Z).
Proof.
  split; [reflexivity|]. split; [exact loop_body_count|].
  intros st Hr. destruct (reach_shape st Hr) as (_ & _ & Hc). rewrite Hc.
  destruct (server_busy st); lia.
Qed.


(** C9: every completed record (departure no later than the horizon)
    has [queue_time = service_start_time - arrival_time >= 0] and
    [system_time = departure_time - arrival_time >= queue_time], given
    that the generator's draws are non-negative. *)
Theorem completed_records_ordered fuel seed g st g' :
  simulate_state fuel seed g = (inr st, g') ->
  forall r, In r (customer_stats st) -> completed r = true ->
    0 <= rec_start r - rec_arrival r /\
    rec_start r - rec_arrival r <= rec_departure r - rec_arrival r.
Proof.
  intros H r Hin _. destruct (simulate_state_run_inv _ _ _ _ _ H) as (_ & (_ & _ & T3 & _) & _).
  rewrite Forall_forall in T3. destruct (T3 r Hin) as [H1 H2]. split; lra.
Qed.

(** C10: in every run that returns a result,
    [completed_customers <= total_customers <= completed_customers + 2],
    given that the generator's draws are non-negative. *)
Theorem completed_total_bound fuel seed g r g' :
  simulate fuel seed g = (inr r, g') ->
  (completed_customers r <= total_customers r <= completed_customers r + 2)%nat.
Proof.
  intro H. destruct (simulate_inr _ _ _ _ _ H) as (st & g1 & Hs & Hr).
  destruct (reduce_inr _ _ _ _ Hr) as (_ & Ht & Hc & _).
  destruct (simulate_state_run_inv _ _ _ _ _ Hs) as (_ & _ & Ho).
  unfold count_over in Ho. rewrite Ht, Hc, (length_filter_split completed (customer_stats st)).
  lia.
Qed.


(** ** Further properties of the engine *)

Lemma chain_snoc {A} (R : A -> A -> Prop) l x :
  chain R l -> Forall (fun y => R y x) l -> chain R (l ++ [x]).
Proof.
  induction l as [|y l IH]; intros Hc Hf; simpl; [split; exact I|].
  inversion Hf as [|y0 l0 Hy Hl]; subst. destruct Hc as [Hh Hc].
  split; [destruct l; simpl; assumption|]. apply IH; assumption.
Qed.

Lemma chain_app_l {A} (R : A -> A -> Prop) l1 l2 : chain R (l1 ++ l2) -> chain R l1.
Proof.
  induction l1 as [|x l1 IH]; simpl; [intros _; exact I|]. intros [Hh Hc].
  split; [destruct l1; simpl in *; tauto|]. apply IH. exact Hc.
Qed.

Lemma dict_set_keys_in k v d : In k (map fst d) -> map fst (dict_set k v d) = map fst d.
Proof.
  induction d as [|[k' v'] d IH]; simpl; [tauto|]. intro Hin.
  destruct (Z.eqb_spec k k'); simpl.
  - subst. reflexivity.
  - f_equal. apply IH. destruct Hin; [congruence|assumption].
Qed.

Lemma dict_set_keys_notin k v d : ~ In k (map fst d) -> map fst (dict_set k v d) = map fst d ++ [k].
Proof.
  induction d as [|[k' v'] d IH]; simpl; [reflexivity|]. intro Hin.
  destruct (Z.eqb_spec k k'); simpl.
  - exfalso. apply Hin. left. congruence.
  - f_equal. apply IH. tauto.
Qed.

Lemma in_key_seq (k : Z) n : In k (map Z.of_nat (seq 0 n)) <-> (0 <= k < Z.of_nat n)%Z.
Proof.
  rewrite in_map_iff. split.
  - intros (i & <- & Hi). apply in_seq in Hi. lia.
  - intro Hk. exists (Z.to_nat k). split; [lia|]. apply in_seq. lia.
Qed.

(** Setting a key [k <= n] of a ledger with keys [0..n-1]. *)
Lemma ledger_keys_set d n k v :
  ledger_keys d n -> (0 <= k <= Z.of_nat n)%Z ->
  exists n', ledger_keys (dict_set k v d) n' /\ (k < Z.of_nat n')%Z /\ (n <= n')%nat.
Proof.
  unfold ledger_keys. intros Hd Hk. destruct (Z.eq_dec k (Z.of_nat n)) as [->|Hne].
  - exists (S n). rewrite dict_set_keys_notin.
    + rewrite Hd, seq_S, map_app. split; [reflexivity|lia].
    + rewrite Hd, in_key_seq. lia.
  - exists n. rewrite dict_set_keys_in; [split; [exact Hd|lia]|].
    rewrite Hd, in_key_seq. lia.
Qed.

Lemma dict_get_nonneg k d def :
  Forall (fun kv => 0 <= snd kv) d -> 0 <= def -> 0 <= dict_get k d def.
Proof.
  induction 1 as [|[k' v] d Hv Hd IH]; simpl; intro Hdef; [exact Hdef|].
  destruct (Z.eqb k k'); auto.
Qed.

Lemma dict_set_nonneg k v d :
  Forall (fun kv => 0 <= snd kv) d -> 0 <= v -> Forall (fun kv => 0 <= snd kv) (dict_set k v d).
Proof.
  induction 1 as [|[k' v'] d Hv Hd IH]; simpl; intro Hv0.
  - constructor; [exact Hv0|constructor].
  - destruct (Z.eqb k k'); constructor; auto.
Qed.

Lemma loop_body_clock st g st' g' :
  shape_inv st -> time_inv st -> loop_body st g = (inr st', g') ->
  current_time st <= current_time st' /\ last_event_time st' = current_time st'.
Proof.
  intros (S1 & S2 & S3) (T1 & T2 & T3 & T4 & T5) H. body_cases H; simpl.
  all: try (destruct (S1 eq_refl) as [Hd _]; discriminate).
  all: try (split; [exact T1|reflexivity]).
  all: destruct (server_busy st) eqn:Eb; [|destruct (S1 eq_refl); discriminate].
  all: destruct (T5 eq_refl) as (pre & r & _ & Hd & Hct & _); injection Hd as Hq; subst q.
  all: split; [exact Hct|reflexivity].
Qed.

Lemma loop_body_ledger_step st g st' g' :
  loop_body st g = (inr st', g') ->
  state_time st' = dict_set (current_state st)
                     (dict_get (current_state st) (state_time st) 0
                      + (current_time st' - last_event_time st)) (state_time st).
Proof. intro H. body_cases H; reflexivity. Qed.

Lemma loop_body_arrival_order st g st' g' :
  shape_inv st -> loop_body st g = (inr st', g') ->
  arrival_order st' = arrival_order st \/
  arrival_order st' = arrival_order st ++ [current_time st'].
Proof.
  intros (S1 & S2 & S3) H. body_cases H; unfold arrival_order; simpl.
  all: try (right; rewrite app_assoc; reflexivity).
  all: try (destruct (S1 eq_refl) as [_ Hq]; rewrite Hq, map_app, !app_nil_r; right; reflexivity).
  all: try (left; rewrite Eq; reflexivity).
  all: left; rewrite map_app, <- app_assoc; simpl; rewrite Eq; reflexivity.
Qed.

Lemma loop_body_stats_start st g st' g' :
  shape_inv st -> time_inv st -> loop_body st g = (inr st', g') ->
  customer_stats st' = customer_stats st \/
  exists r, customer_stats st' = customer_stats st ++ [r] /\
    rec_start r = current_time st' /\ Forall (departed_by (current_time st')) (customer_stats st).
Proof.
  intros (S1 & S2 & S3) (T1 & T2 & T3 & T4 & T5) H. body_cases H; simpl.
  all: try (left; reflexivity).
  all: try (destruct (S1 eq_refl) as [Hd _]; discriminate).
  (* arrival, server idle *)
  all: try (right; eexists; split; [reflexivity|]; split; [reflexivity|];
            eapply departed_by_mono; [apply T4; reflexivity|exact T1]; fail).
  (* departure, non-empty line *)
  apply Qle_bool_false in Ec.
  destruct (server_busy st) eqn:Eb; [|destruct (S1 eq_refl); discriminate].
  destruct (T5 eq_refl) as (pre & r & Hs & Hd & Hct & Hpre). injection Hd as Hq. subst q.
  right. eexists. split; [reflexivity|]. split; [reflexivity|].
  rewrite Hs. apply Forall_app. split.
  - eapply departed_by_mono; eauto.
  - constructor; [unfold departed_by; apply Qle_refl|constructor].
Qed.

Lemma loop_body_service_start st g st' g' :
  shape_inv st ->
  (server_busy st = true -> exists pre r, customer_stats st = pre ++ [r] /\
                                          rec_start r = server_start_time st) ->
  loop_body st g = (inr st', g') ->
  server_busy st' = true -> exists pre r, customer_stats st' = pre ++ [r] /\
                                          rec_start r = server_start_time st'.
Proof.
  intros (S1 & S2 & S3) Hb H. body_cases H; simpl; intro Hb'.
  all: try discriminate.
  all: try (apply Hb; exact Hb').
  all: eexists; eexists; split; reflexivity.
Qed.

Lemma Forall_between_mono l a b :
  Forall (fun q => 0 <= q <= a) l -> a <= b -> Forall (fun q => 0 <= q <= b) l.
Proof.
  intros H Hab. eapply Forall_impl; [|exact H]. intros q Hq. simpl in Hq. split; lra.
Qed.

Lemma init_order a : 0 <= a -> order_inv (init_state a).
Proof.
  intro Ha. unfold order_inv, arrival_order. simpl.
  split; [exact I|]. split; [constructor|]. split; [exact I|].
  split; [constructor; [apply Qle_refl|constructor]|]. split; [reflexivity|].
  split; [apply Qle_refl|]. split; [discriminate|].
  exists 1%nat. split; [reflexivity|lia].
Qed.

Lemma loop_body_order st g st' g' :
  shape_inv st -> time_inv st -> order_inv st -> loop_body st g = (inr st', g') -> order_inv st'.
Proof.
  intros Hs Ht (O1 & O2 & O3 & O4 & O5 & O6 & O7 & n & Hk & Hc) H.
  destruct (loop_body_clock _ _ _ _ Hs Ht H) as [Hmono Hlast].
  pose proof (loop_body_ledger_step _ _ _ _ H) as Hled.
  pose proof (loop_body_count _ _ _ _ H) as Hcnt.
  split; [|split; [|split; [|split; [|split; [|split; [|split]]]]]].
  - destruct (loop_body_arrival_order _ _ _ _ Hs H) as [-> | ->]; [exact O1|].
    apply chain_snoc; [exact O1|]. eapply Forall_impl; [|exact O2].
    intros q Hq. simpl in Hq. lra.
  - destruct (loop_body_arrival_order _ _ _ _ Hs H) as [-> | ->].
    + eapply Forall_between_mono; eauto.
    + apply Forall_app. split; [eapply Forall_between_mono; eauto|].
      constructor; [split; lra|constructor].
  - destruct (loop_body_stats_start _ _ _ _ Hs Ht H) as [-> | (r & -> & Hr & Hpre)]; [exact O3|].
    apply chain_snoc; [exact O3|]. rewrite <- Hr in Hpre. exact Hpre.
  - rewrite Hled. apply dict_set_nonneg; [exact O4|].
    pose proof (dict_get_nonneg (current_state st) _ 0 O4 (Qle_refl 0)). rewrite O5. lra.
  - exact Hlast.
  - lra.
  - eapply loop_body_service_start; eauto.
  - pose proof (loop_body_shape _ _ _ _ Hs H) as (_ & _ & S3').
    destruct (ledger_keys_set (state_time st) n (current_state st)
                (dict_get (current_state st) (state_time st) 0
                 + (current_time st' - last_event_time st)) Hk Hc) as (n' & Hk' & Hlt & Hle).
    exists n'. rewrite Hled. split; [exact Hk'|].
    destruct (server_busy st'); destruct (is_arrival st); lia.
Qed.

Lemma simulate_state_reach fuel seed g st g' :
  simulate_state fuel seed g = (inr st, g') ->
  exists st0, run_reach st0 /\ qltb (current_time st0) simulation_time = false /\
              st = final_update st0.
Proof.
  intro H. destruct (simulate_state_inr _ _ _ _ _ H) as (a & g0 & g1 & st0 & Ha & Hl & ->).
  apply exponential_nonneg in Ha.
  destruct (run_loop_preserves run_reach
              (fun st g st' g' Hr Hc Hb => run_reach_step st st' g g' Hr Hc Hb)
              _ _ _ _ _ (run_reach_init a Ha) Hl) as [Hr Hc].
  eauto.
Qed.

Lemma run_reach_inv st : run_reach st -> run_inv st /\ order_inv st /\ ledger_inv st.
Proof.
  induction 1 as [a Ha|st st' g g' Hr [Hi [Ho Hl]] Hc Hb].
  - split; [split; [apply init_shape|split; [apply init_time; exact Ha|]]|].
    + unfold count_over. simpl. lia.
    + split; [apply init_order; exact Ha|apply init_ledger].
  - split; [eapply loop_body_run_inv; eauto|].
    destruct Hi as (Hs & Ht & _). split; [eapply loop_body_order; eauto|].
    eapply loop_body_ledger; eauto.
Qed.

Lemma dict_get_set_other k k' v d def :
  k <> k' -> dict_get k (dict_set k' v d) def = dict_get k d def.
Proof.
  intro Hne. induction d as [|[k0 v0] d IH]; simpl.
  - destruct (Z.eqb_spec k k'); [contradiction|reflexivity].
  - destruct (Z.eqb_spec k' k0); simpl.
    + subst k0. destruct (Z.eqb_spec k k'); [contradiction|reflexivity].
    + destruct (Z.eqb k k0); [reflexivity|exact IH].
Qed.

Lemma dict_get_probs k d h :
  dict_get k (map (fun nt => (fst nt, snd nt / h)) d) 0 == dict_get k d 0 / h.
Proof.
  induction d as [|[k' v] d IH]; simpl.
  - unfold Qdiv. ring.
  - destruct (Z.eqb k k'); [reflexivity|exact IH].
Qed.

Lemma div_nonneg x h : 0 <= x -> 0 < h -> 0 <= x / h.
Proof.
  intros Hx Hh. apply Qmult_le_0_compat; [exact Hx|].
  apply Qlt_le_weak, Qinv_lt_0_compat. exact Hh.
Qed.

Lemma in_le_sum l x : Forall (fun q => 0 <= q) l -> In x l -> x <= py_sum l.
Proof.
  induction 1 as [|y l Hy Hl IH]; simpl; [tauto|]. intros [->|Hin]; rewrite py_sum_cons.
  - assert (0 <= py_sum l).
    { clear IH. induction Hl as [|z l Hz Hl IH']; [apply Qle_refl|rewrite py_sum_cons; lra]. }
    lra.
  - specialize (IH Hin). lra.
Qed.

(** The final state of a run that returns: the loop state it comes from and
    what the final update of line 78 leaves unchanged. *)
Lemma simulate_state_final fuel seed g st g' :
  simulate_state fuel seed g = (inr st, g') ->
  exists st0, run_reach st0 /\ run_inv st0 /\ order_inv st0 /\ ledger_inv st0 /\
    qltb (current_time st0) simulation_time = false /\
    customer_stats st = customer_stats st0 /\ queue st = queue st0 /\
    server_busy st = server_busy st0 /\ server_start_time st = server_start_time st0 /\
    next_departure_time st = next_departure_time st0 /\
    current_time st = current_time st0 /\ last_event_time st = last_event_time st0 /\
    current_state st = current_state st0 /\
    state_time st = dict_set (current_state st0)
                      (dict_get (current_state st0) (state_time st0) 0
                       + (simulation_time - last_event_time st0)) (state_time st0) /\
    st = final_update st0.
Proof.
  intro H. destruct (simulate_state_reach _ _ _ _ _ H) as (st0 & Hr & Hc & ->).
  destruct (run_reach_inv _ Hr) as (Hi & Ho & Hl).
  exists st0. split; [exact Hr|]. split; [exact Hi|]. split; [exact Ho|]. split; [exact Hl|].
  split; [exact Hc|]. repeat split.
Qed.

Lemma final_ledger_keys fuel seed g st g' :
  simulate_state fuel seed g = (inr st, g') ->
  exists n, ledger_keys (state_time st) n /\ (0 <= current_state st < Z.of_nat n)%Z.
Proof.
  intro H. destruct (simulate_state_final _ _ _ _ _ H)
    as (st0 & _ & _ & (_ & _ & _ & _ & _ & _ & _ & n & Hk & Hc) & _ & _ & _ & _ & _ & _ & _ & _ & _ & Hcs & Hst & _).
  rewrite Hst, Hcs.
  destruct (ledger_keys_set _ _ (current_state st0)
              (dict_get (current_state st0) (state_time st0) 0
               + (simulation_time - last_event_time st0)) Hk Hc) as (n' & Hk' & Hlt & _).
  exists n'. split; [exact Hk'|lia].
Qed.

Lemma reduce_fields st g r g' :
  reduce st g = (inr r, g') ->
  let done := filter completed (customer_stats st) in
  let busy0 := py_sum (map (fun r => rec_departure r - rec_start r) done) in
  ~ simulation_time == 0 /\
  total_system_time r = py_sum (map (fun r => rec_departure r - rec_arrival r) done) /\
  total_queue_time r = py_sum (map (fun r => rec_start r - rec_arrival r) done) /\
  server_busy_time r = (if server_busy st && ext_gtb (next_departure_time st) simulation_time
                        then busy0 + (simulation_time - server_start_time st) else busy0) /\
  server_utilization r = server_busy_time r / simulation_time /\
  average_system_time r = match map (fun r => rec_departure r - rec_arrival r) done with
                          | [] => 0 | l => np_mean l end /\
  average_queue_time r = match map (fun r => rec_start r - rec_arrival r) done with
                         | [] => 0 | l => np_mean l end /\
  average_system_length r = py_sum (map (fun nt => inject_Z (fst nt) * snd nt) (state_time st))
                            / simulation_time /\
  average_queue_length r = py_sum (map (fun nt => inject_Z (Z.max 0 (fst nt - 1)) * snd nt)
                                       (state_time st)) / simulation_time.
Proof.
  unfold reduce. intro H. peel. simpl. repeat split; try reflexivity; try assumption.
  all: destruct (map _ _); reflexivity.
Qed.

Lemma py_sum_nonneg l : Forall (fun q => 0 <= q) l -> 0 <= py_sum l.
Proof. induction 1; [apply Qle_refl|rewrite py_sum_cons; lra]. Qed.

Lemma py_sum_map_le {A} (f h : A -> Q) l :
  Forall (fun x => f x <= h x) l -> py_sum (map f l) <= py_sum (map h l).
Proof. induction 1; simpl; [apply Qle_refl|rewrite !py_sum_cons; lra]. Qed.

Lemma Forall_filter {A} (P : A -> Prop) (f : A -> bool) l :
  Forall P l -> Forall P (filter f l).
Proof. induction 1; simpl; [constructor|destruct (f x); auto]. Qed.

Lemma chain_head_all x l :
  chain served_before (x :: l) -> Forall rec_ok l -> Forall (served_before x) l.
Proof.
  revert x. induction l as [|y l IH]; intros x Hc Hok; [constructor|].
  destruct Hc as [Hxy Hc]. inversion Hok as [|y0 l0 Hy Hl]; subst.
  constructor; [exact Hxy|].
  eapply Forall_impl; [|exact (IH y Hc Hl)]. unfold served_before, rec_ok in *.
  intros z Hz. destruct Hy. lra.
Qed.

Lemma chain_last_all pre x :
  chain served_before (pre ++ [x]) -> Forall rec_ok pre -> Forall (fun p => served_before p x) pre.
Proof.
  induction pre as [|p pre IH]; intros Hc Hok; [constructor|].
  simpl in Hc. destruct Hc as [Hh Hc]. inversion Hok as [|p0 l0 Hp Hl]; subst.
  specialize (IH Hc Hl). constructor; [|exact IH].
  destruct pre as [|q pre]; simpl in Hh; [exact Hh|].
  inversion IH as [|q0 l1 Hq _]; subst. inversion Hl as [|q1 l2 Hoq _]; subst.
  unfold served_before, rec_ok in *. destruct Hoq. lra.
Qed.

(** The completed services of a chain of records fit between [lo] and
    [hi]. *)
Lemma busy_bound l lo hi :
  chain served_before l -> Forall rec_ok l -> Forall (fun r => lo <= rec_start r) l ->
  Forall (fun r => completed r = true -> rec_departure r <= hi) l -> lo <= hi ->
  0 <= py_sum (map (fun r => rec_departure r - rec_start r) (filter completed l)) <= hi - lo.
Proof.
  revert lo. induction l as [|x l IH]; intros lo Hc Hok Hlo Hhi Hle; simpl.
  - unfold py_sum. simpl. lra.
  - inversion Hok as [|x0 l0 Hx Hl]; subst. inversion Hlo as [|x1 l1 Hxlo Hllo]; subst.
    inversion Hhi as [|x2 l2 Hxhi Hlhi]; subst.
    pose proof (chain_head_all x l Hc Hl) as Hall. destruct Hc as [_ Hc].
    destruct (completed x) eqn:Ex; simpl.
    + rewrite py_sum_cons. specialize (Hxhi eq_refl).
      destruct (IH (rec_departure x) Hc Hl Hall Hlhi Hxhi). unfold rec_ok in Hx. lra.
    + apply IH; auto.
Qed.

Lemma completed_le r : completed r = true -> rec_departure r <= simulation_time.
Proof. unfold completed. apply Qle_bool_iff. Qed.

Lemma inject_Z_pred k : inject_Z (k - 1) == inject_Z k - 1.
Proof. unfold Qeq. simpl. lia. Qed.

Lemma length_weights_gap d :
  Forall (fun kv => (1 <= fst kv)%Z) d ->
  py_sum (map (fun nt => inject_Z (fst nt) * snd nt) d)
  - py_sum (map (fun nt => inject_Z (Z.max 0 (fst nt - 1)) * snd nt) d)
  == py_sum (dict_values d).
Proof.
  induction 1 as [|[k v] d Hk Hd IH]; unfold dict_values in *; simpl.
  - unfold py_sum. simpl. ring.
  - rewrite !py_sum_cons. simpl in Hk. rewrite Z.max_r by lia. rewrite inject_Z_pred.
    rewrite <- IH. ring.
Qed.

Lemma max_key_from_seq d m s k :
  map fst d = map Z.of_nat (seq s k) -> (Z.of_nat s - 1 <= m)%Z ->
  max_key_from m d = Z.max m (Z.of_nat (s + k) - 1).
Proof.
  revert m s k. induction d as [|[k0 v] d IH]; intros m s k Hk Hm; simpl.
  - destruct k; [|discriminate]. rewrite Nat.add_0_r. lia.
  - destruct k as [|k]; [discriminate|]. simpl in Hk. injection Hk as H0 Hk. subst k0.
    rewrite (IH _ (S s) k Hk) by lia. replace (S s + k)%nat with (s + S k)%nat by lia. lia.
Qed.

Lemma dict_max_key_seq d n :
  map fst d = map Z.of_nat (seq 0 n) -> (0 < n)%nat -> dict_max_key d = Some (Z.of_nat n - 1)%Z.
Proof.
  intros Hk Hn. destruct d as [|[k0 v] d]; [destruct n; [lia|discriminate]|].
  destruct n as [|n]; [lia|]. simpl in Hk. injection Hk as H0 Hk. subst k0. cbn [dict_max_key].
  rewrite (max_key_from_seq d 0 1 n Hk) by lia. f_equal. lia.
Qed.

Lemma listing_seq d s k :
  map fst d = map Z.of_nat (seq s k) ->
  map (fun i => (i, dict_get i d 0)) (map Z.of_nat (seq s k)) = d.
Proof.
  revert s k. induction d as [|[k0 v] d IH]; intros s k Hk.
  - destruct k; [reflexivity|discriminate].
  - destruct k as [|k]; [discriminate|]. simpl in Hk. injection Hk as H0 Hk. subst k0.
    change (seq s (S k)) with (s :: seq (S s) k). cbn [map dict_get fst snd].
    rewrite Z.eqb_refl. f_equal.
    transitivity (map (fun i => (i, dict_get i d 0)) (map Z.of_nat (seq (S s) k)));
      [|exact (IH _ _ Hk)].
    apply map_ext_in. intros i Hi. apply in_map_iff in Hi. destruct Hi as (j & <- & Hj).
    apply in_seq in Hj. replace (Z.eqb (Z.of_nat j) (Z.of_nat s)) with false; [reflexivity|].
    symmetry. apply Z.eqb_neq. lia.
Qed.

(** After a returned run, [max(keys)] of line 159 is [n - 1] and the rows
    of lines 160-162 list [state_probabilities] itself. *)
Lemma printed_rows fuel seed g r g1 :
  simulate fuel seed g = (inr r, g1) ->
  exists n, dict_max_key (state_probabilities r) = Some (Z.of_nat n - 1)%Z /\
    map (fun i => (i, dict_get i (state_probabilities r) 0)) (py_range (Z.of_nat n - 1 + 1))
    = state_probabilities r.
Proof.
  intro Hsim. destruct (simulate_inr _ _ _ _ _ Hsim) as (st & g2 & Hs & Hr).
  destruct (reduce_inr _ _ _ _ Hr) as (_ & _ & _ & Hp).
  destruct (final_ledger_keys _ _ _ _ _ Hs) as (n & Hkeys & Hcs). unfold ledger_keys in Hkeys.
  assert (Hpk : map fst (state_probabilities r) = map Z.of_nat (seq 0 n)).
  { rewrite Hp, map_map. exact Hkeys. }
  exists n. split; [apply dict_max_key_seq; [exact Hpk|lia]|].
  replace (py_range (Z.of_nat n - 1 + 1)) with (map Z.of_nat (seq 0 n))
    by (unfold py_range; do 2 f_equal; lia).
  apply listing_seq. exact Hpk.
Qed.

(** ** Further properties *)

(** X1: the clock never runs backwards: each iteration of the event loop
    sets [current_time] to the time of the event it processes, which is
    never earlier than the current time, and sets [last_event_time] to
    the same value (given non-negative draws). *)
Theorem event_clock_monotone st g st' g' :
  run_reach st -> loop_body st g = (inr st', g') ->
  current_time st <= current_time st' /\ last_event_time st' = current_time st'.
Proof.
  intros Hr H. destruct (run_reach_inv _ Hr) as ((Hs & Ht & _) & _ & _).
  exact (loop_body_clock _ _ _ _ Hs Ht H).
Qed.

(** X2: customers are served in order of arrival (FIFO): at the end of a
    run, the arrival times of the customer records, followed by those of
    the customers still waiting in the line, are non-decreasing. *)
Theorem service_in_arrival_order fuel seed g st g' :
  simulate_state fuel seed g = (inr st, g') ->
  chain Qle (map rec_arrival (customer_stats st) ++ queue st).
Proof.
  intro H. destruct (simulate_state_final _ _ _ _ _ H) as (st0 & Hr0 & Hi0 & (O1 & O2 & O3 & O4 & O5 & O6 & O7 & n & Hk & Hkc) & Hl0 & Hc0 & Hstats & Hq & Hbusy & Hsst & Hnd & Hct & Hlast & Hcs & Hst & Hfin).
  rewrite Hstats, Hq. exact O1.
Qed.

(** X3: the single server serves one customer at a time: in the records
    of a run, each customer's departure is no later than the service start
    of the next record. *)
Theorem services_do_not_overlap fuel seed g st g' :
  simulate_state fuel seed g = (inr st, g') ->
  chain (fun r1 r2 => rec_departure r1 <= rec_start r2) (customer_stats st).
Proof.
  intro H. destruct (simulate_state_final _ _ _ _ _ H) as (st0 & Hr0 & Hi0 & (O1 & O2 & O3 & O4 & O5 & O6 & O7 & n & Hk & Hkc) & Hl0 & Hc0 & Hstats & Hq & Hbusy & Hsst & Hnd & Hct & Hlast & Hcs & Hst & Hfin).
  rewrite Hstats. exact O3.
Qed.

(** X4: inside the event loop every [state_time] entry is non-negative:
    each event adds the non-negative time since the last event. *)
Theorem ledger_nonneg_during_loop st :
  run_reach st -> Forall (fun kv => 0 <= snd kv) (state_time st).
Proof.
  intro Hr. destruct (run_reach_inv _ Hr) as (_ & (_ & _ & _ & O4 & _) & _). exact O4.
Qed.

(** X5: with a positive horizon, the state probability of every count
    other than the final one ([current_state] at the end of the run) is
    non-negative: only the final update of line 78 can make an entry
    negative. *)
Theorem probabilities_nonneg_except_final_count fuel seed g st g1 r g' :
  simulate_state fuel seed g = (inr st, g1) -> reduce st g1 = (inr r, g') ->
  0 < simulation_time ->
  forall k, k <> current_state st -> 0 <= dict_get k (state_probabilities r) 0.
Proof.
  intros Hs Hr Hh k Hne.
  destruct (reduce_inr _ _ _ _ Hr) as (_ & _ & _ & Hp).
  destruct (simulate_state_final _ _ _ _ _ Hs) as (st0 & Hr0 & Hi0 & (O1 & O2 & O3 & O4 & O5 & O6 & O7 & n & Hk & Hkc) & Hl0 & Hc0 & Hstats & Hq & Hbusy & Hsst & Hnd & Hct & Hlast & Hcs & Hst & Hfin).
  rewrite Hp, dict_get_probs, Hst, dict_get_set_other by congruence.
  apply div_nonneg; [apply dict_get_nonneg; [exact O4|apply Qle_refl]|exact Hh].
Qed.

(** X6: when the last processed event is no later than the horizon, every
    value of [state_probabilities] lies in [0, 1]. *)
Theorem probabilities_in_unit_interval_without_overshoot fuel seed g st g1 r g' :
  simulate_state fuel seed g = (inr st, g1) -> reduce st g1 = (inr r, g') ->
  0 < simulation_time -> last_event_time st <= simulation_time ->
  Forall (fun p => 0 <= p <= 1) (dict_values (state_probabilities r)).
Proof.
  intros Hs Hr Hh Hlt.
  destruct (reduce_inr _ _ _ _ Hr) as (_ & _ & _ & Hp).
  destruct (simulate_state_final _ _ _ _ _ Hs) as (st0 & Hr0 & Hi0 & (O1 & O2 & O3 & O4 & O5 & O6 & O7 & n & Hk & Hkc) & Hl0 & Hc0 & Hstats & Hq & Hbusy & Hsst & Hnd & Hct & Hlast & Hcs & Hst & Hfin).
  assert (Hnn : Forall (fun kv => 0 <= snd kv) (state_time st)).
  { rewrite Hst. apply dict_set_nonneg; [exact O4|].
    pose proof (dict_get_nonneg (current_state st0) _ 0 O4 (Qle_refl 0)). rewrite <- Hlast. lra. }
  assert (Hsum : py_sum (dict_values (state_time st)) == simulation_time).
  { pose proof (final_update_ledger _ Hl0) as E. unfold ledger_sum in E. rewrite Hfin. exact E. }
  rewrite Hp. unfold dict_values. rewrite map_map. apply Forall_forall. intros x Hx.
  apply in_map_iff in Hx. destruct Hx as ([k v] & <- & Hin). simpl.
  assert (Hv : 0 <= v) by (rewrite Forall_forall in Hnn; exact (Hnn (k, v) Hin)).
  assert (Hvh : v <= simulation_time).
  { rewrite <- Hsum. apply in_le_sum.
    - unfold dict_values. apply Forall_map. exact Hnn.
    - unfold dict_values. change v with (snd (k, v)). apply in_map. exact Hin. }
  split; [apply div_nonneg; assumption|].
  apply Qle_shift_div_r; [exact Hh|lra].
Qed.

(** X7: at the end of a run the keys of [state_time] are exactly
    [0, 1, ..., n-1] in insertion order, for some [n], and the final
    population count is one of them. *)
Theorem ledger_keys_contiguous fuel seed g st g' :
  simulate_state fuel seed g = (inr st, g') ->
  exists n, map fst (state_time st) = map Z.of_nat (seq 0 n) /\
            (0 <= current_state st < Z.of_nat n)%Z.
Proof. intro H. exact (final_ledger_keys _ _ _ _ _ H). Qed.


(** X9: with a positive horizon, [server_utilization] lies in [0, 1]
    whenever the service in progress at the end (if any) started no later
    than the horizon; the completed services never overlap and end by the
    horizon. *)
Theorem utilization_in_unit_interval_without_overshoot fuel seed g st g1 r g' :
  simulate_state fuel seed g = (inr st, g1) -> reduce st g1 = (inr r, g') ->
  0 < simulation_time ->
  (server_busy st = true -> server_start_time st <= simulation_time) ->
  0 <= server_utilization r <= 1.
Proof.
  intros Hs Hr Hh Hsb.
  destruct (reduce_fields _ _ _ _ Hr) as (_ & _ & _ & Hbusy_r & Hu & _).
  destruct (simulate_state_final _ _ _ _ _ Hs) as (st0 & Hr0 & Hi0 & (O1 & O2 & O3 & O4 & O5 & O6 & O7 & n & Hk & Hkc) & Hl0 & Hc0 & Hstats & Hq & Hbusy & Hsst & Hnd & Hct & Hlast & Hcs & Hst & Hfin).
  destruct Hi0 as (_ & (_ & _ & T3 & _ & T5) & _).
  assert (Hstart : Forall (fun r => 0 <= rec_start r) (customer_stats st0)).
  { unfold arrival_order in O2. apply Forall_app in O2. destruct O2 as [Ha _].
    apply Forall_map in Ha. rewrite Forall_forall in *. intros x Hx.
    destruct (Ha x Hx), (T3 x Hx). lra. }
  assert (Hb : 0 <= server_busy_time r <= simulation_time).
  { rewrite Hbusy_r, Hstats, Hbusy, Hnd, Hsst.
    destruct (server_busy st0 && ext_gtb (next_departure_time st0) simulation_time) eqn:Et.
    - apply andb_true_iff in Et. destruct Et as [Eb Egt].
      destruct (T5 Eb) as (pre & x & Hsx & Hdx & _ & _).
      destruct (O7 Eb) as (pre' & x' & Hsx' & Hx').
      rewrite Hsx' in Hsx. apply app_inj_tail in Hsx. destruct Hsx as [<- <-].
      rewrite Hdx in Egt. simpl in Egt. apply qltb_true in Egt.
      assert (Hnc : completed x' = false).
      { unfold completed. apply not_true_iff_false. rewrite Qle_bool_iff. lra. }
      rewrite Hsx', filter_app. simpl. rewrite Hnc, app_nil_r.
      rewrite Hsx' in O3, T3, Hstart. apply Forall_app in T3. destruct T3 as [T3p T3x].
      apply Forall_app in Hstart. destruct Hstart as [Hsp Hsx0].
      inversion Hsx0 as [|y0 l0 Hsx1 _]; subst.
      pose proof (chain_last_all _ _ O3 T3p) as Hall.
      assert (Hsb' := Hsb). rewrite Hbusy, Hsst in Hsb'. specialize (Hsb' Eb).
      assert (Hdone : Forall (fun r => completed r = true -> rec_departure r <= rec_start x') pre').
      { eapply Forall_impl; [|exact Hall]. unfold served_before. auto. }
      destruct (busy_bound pre' 0 (rec_start x') (chain_app_l _ _ _ O3) T3p Hsp Hdone Hsx1).
      rewrite Hx' in *. lra.
    - assert (Hdone : Forall (fun r => completed r = true -> rec_departure r <= simulation_time)
                        (customer_stats st0)).
      { rewrite Forall_forall. intros x _. apply completed_le. }
      destruct (busy_bound (customer_stats st0) 0 simulation_time O3 T3 Hstart Hdone); lra. }
  rewrite Hu. split; [apply div_nonneg; [lra|exact Hh]|].
  apply Qle_shift_div_r; [exact Hh|lra].
Qed.

(** X10: the total and average queue times are non-negative and no larger
    than the total and average system times (given non-negative draws). *)
Theorem average_times_ordered fuel seed g r g' :
  simulate fuel seed g = (inr r, g') ->
  0 <= total_queue_time r <= total_system_time r /\
  0 <= average_queue_time r <= average_system_time r.
Proof.
  intro H. destruct (simulate_inr _ _ _ _ _ H) as (st & g1 & Hs & Hr).
  destruct (reduce_fields _ _ _ _ Hr) as (_ & Hts & Htq & _ & _ & Has & Haq & _).
  destruct (simulate_state_run_inv _ _ _ _ _ Hs) as (_ & (_ & _ & T3 & _) & _).
  pose proof (Forall_filter _ completed _ T3) as Hok.
  set (done := filter completed (customer_stats st)) in *.
  assert (Hq0 : Forall (fun q => 0 <= q) (map (fun r => rec_start r - rec_arrival r) done)).
  { apply Forall_map. eapply Forall_impl; [|exact Hok]. unfold rec_ok. intros x [Hx _]. lra. }
  assert (Hqs : py_sum (map (fun r => rec_start r - rec_arrival r) done)
                <= py_sum (map (fun r => rec_departure r - rec_arrival r) done)).
  { apply py_sum_map_le. eapply Forall_impl; [|exact Hok]. unfold rec_ok. intros x [_ Hx]. lra. }
  pose proof (py_sum_nonneg _ Hq0) as Hq0'.
  rewrite Hts, Htq, Has, Haq. split; [lra|].
  destruct done as [|x l]; simpl; [lra|].
  unfold np_mean. cbn [length]. rewrite !length_map.
  set (n := inject_Z (Z.of_nat (S (length l)))).
  assert (Hn : 0 < n) by (unfold n, Qlt; simpl; lia).
  simpl in Hq0', Hqs. split.
  - apply div_nonneg; [exact Hq0'|exact Hn].
  - apply Qmult_le_compat_r; [exact Hqs|]. apply Qlt_le_weak, Qinv_lt_0_compat. exact Hn.
Qed.

(** X11: [average_system_length - average_queue_length] equals
    [1 - state_probabilities[0]], the fraction of the horizon with at
    least one customer present (given non-negative draws). *)
Theorem length_gap_is_busy_probability fuel seed g r g' :
  simulate fuel seed g = (inr r, g') ->
  average_system_length r - average_queue_length r == 1 - dict_get 0 (state_probabilities r) 0.
Proof.
  intro H. destruct (simulate_inr _ _ _ _ _ H) as (st & g1 & Hs & Hr).
  destruct (reduce_fields _ _ _ _ Hr) as (Hh & _ & _ & _ & _ & _ & _ & Hsl & Hql).
  destruct (reduce_inr _ _ _ _ Hr) as (_ & _ & _ & Hp).
  destruct (final_ledger_keys _ _ _ _ _ Hs) as (nk & Hkeys & Hcsk). unfold ledger_keys in Hkeys.
  destruct (simulate_state_final _ _ _ _ _ Hs) as (st0 & Hr0 & Hi0 & (O1 & O2 & O3 & O4 & O5 & O6 & O7 & n & Hk & Hkc) & Hl0 & Hc0 & Hstats & Hq & Hbusy & Hsst & Hnd & Hct & Hlast & Hcs & Hst & Hfin).
  pose proof (final_update_ledger _ Hl0) as Hsum. rewrite <- Hfin in Hsum. unfold ledger_sum in Hsum.
  rewrite Hsl, Hql, Hp, dict_get_probs.
  destruct (state_time st) as [|[k0 t0] rest] eqn:Ed; [destruct nk; simpl in Hkeys; [lia|discriminate]|].
  destruct nk as [|nk]; [simpl in Hkeys; discriminate|].
  simpl in Hkeys. injection Hkeys as H0 Hrest. subst k0.
  assert (Hge : Forall (fun kv => (1 <= fst kv)%Z) rest).
  { rewrite Forall_forall. intros [k v] Hin.
    assert (Hk0 : In k (map fst rest)) by (change k with (fst (k, v)); apply in_map; exact Hin).
    rewrite Hrest in Hk0. apply in_map_iff in Hk0. destruct Hk0 as (j & <- & Hj).
    apply in_seq in Hj. simpl. lia. }
  pose proof (length_weights_gap _ Hge) as Hgap.
  unfold dict_values in Hsum. simpl in Hsum. rewrite py_sum_cons in Hsum.
  simpl. rewrite !py_sum_cons. simpl.
  unfold dict_values in Hgap.
  transitivity ((py_sum (map (fun nt => inject_Z (fst nt) * snd nt) rest)
                 - py_sum (map (fun nt => inject_Z (Z.max 0 (fst nt - 1)) * snd nt) rest))
                / simulation_time).
  - change (Z.max 0 (-1)) with 0%Z. unfold Qdiv. ring.
  - rewrite Hgap. assert (E : py_sum (map snd rest) == simulation_time - t0) by lra.
    rewrite E. field. exact Hh.
Qed.

(** X12: with a negative horizon the loop never runs and the result is
    that of an empty run: no customers, zero busy time, utilization and
    average lengths, and [state_probabilities == {0: 1.0}]. *)
Theorem negative_horizon_result fuel seed g r g' :
  simulation_time < 0 -> simulate fuel seed g = (inr r, g') ->
  total_customers r = 0%nat /\ completed_customers r = 0%nat /\
  server_busy_time r == 0 /\ server_utilization r == 0 /\
  average_system_length r == 0 /\ average_queue_length r == 0 /\
  map fst (state_probabilities r) = [0%Z] /\ dict_get 0 (state_probabilities r) 0 == 1.
Proof.
  intros Hneg H. destruct (simulate_inr _ _ _ _ _ H) as (st & g1 & Hs & Hr).
  destruct (simulate_state_inr _ _ _ _ _ Hs) as (a & g0 & g2 & st0 & _ & Hl & ->).
  assert (Hst0 : st0 = init_state a).
  { destruct fuel; simpl in Hl; rewrite qltb_false in Hl by lra; peel; reflexivity. }
  subst st0. destruct (reduce_inr _ _ _ _ Hr) as (Hh & Htc & Hcc & Hp).
  destruct (reduce_fields _ _ _ _ Hr) as (_ & _ & _ & Hb & Hu & _ & _ & Hsl & Hql).
  rewrite Htc, Hcc, Hp, Hsl, Hql, Hu, Hb. simpl.
  unfold py_sum. simpl. repeat split; try reflexivity.
  all: try (unfold Qdiv; ring; fail).
  all: field; exact Hh.
Qed.

(** X13: the distribution [run_mm1_simulation] prints (lines 159-163) is
    exactly [state_probabilities]: whenever [simulate_mm1_queue] returns
    and line 143 does not divide by zero, [max(keys)] does not fail, every
    count in [range(max_state + 1)] is a key (the default 0 of [.get] is
    never used), and [run_mm1_simulation] returns that result with those
    rows; conversely whatever it returns comes from [simulate_mm1_queue]
    in this way. *)
Theorem printed_distribution_is_state_probabilities fuel seed g :
  (forall r g1, simulate fuel seed g = (inr r, g1) -> ~ service_rate == 0 ->
     run_mm1_simulation fuel seed g = (inr (r, state_probabilities r), g1)) /\
  (forall r rows g', run_mm1_simulation fuel seed g = (inr (r, rows), g') ->
     simulate fuel seed g = (inr r, g') /\ rows = state_probabilities r).
Proof.
  split.
  - intros r g1 Hsim Hm. unfold run_mm1_simulation.
    rewrite (bind_inr_eq _ _ _ _ _ Hsim), (bind_inr_eq _ _ _ _ _ (py_div_ok _ _ g1 Hm)).
    destruct (printed_rows _ _ _ _ _ Hsim) as (n & Hmax & Hrows).
    rewrite Hmax, Hrows. reflexivity.
  - intros r rows g' H. unfold run_mm1_simulation in H.
    apply bind_inr in H. destruct H as (r0 & g0 & Hsim & H).
    peel. destruct (printed_rows _ _ _ _ _ Hsim) as (n & Hmax & Hrows).
    rewrite Hmax in H. peel. injection E as -> ->. split; [exact Hsim|].
    exact Hrows.
Qed.


End Engine.

(** ** The theoretical curve of the analysis script *)

Lemma chain_map_seq {A} (R : A -> A -> Prop) (f : nat -> A) s k :
  (forall i, (s <= i)%nat -> (S i < s + k)%nat -> R (f i) (f (S i))) ->
  chain R (map f (seq s k)).
Proof.
  revert s. induction k as [|k IH]; intros s Hf; simpl; [exact I|]. split.
  - destruct k as [|k]; simpl; [exact I|]. apply Hf; lia.
  - apply IH. intros i Hi Hk. apply Hf; lia.
Qed.

Lemma chain_map {A B} (R : A -> A -> Prop) (R' : B -> B -> Prop) (P : A -> Prop) (f : A -> B) l :
  (forall x y, P x -> P y -> R x y -> R' (f x) (f y)) ->
  Forall P l -> chain R l -> chain R' (map f l).
Proof.
  intros Hf. induction 1 as [|x l Hx Hl IH]; simpl; [tauto|]. intros [Hh Hc].
  split; [|exact (IH Hc)].
  destruct l as [|y l]; simpl; [exact I|]. inversion Hl; subst. apply Hf; assumption.
Qed.

Lemma inject_Z_succ (i : nat) : inject_Z (Z.of_nat (S i)) == inject_Z (Z.of_nat i) + 1.
Proof. rewrite Nat2Z.inj_succ. unfold Qeq. simpl. lia. Qed.

Lemma linspace_props start stop num :
  start < stop -> (2 <= num)%nat ->
  chain Qlt (linspace start stop num) /\
  Forall (fun x => start <= x <= stop) (linspace start stop num).
Proof.
  intros Hlt Hn. destruct num as [|[|m]]; [lia|lia|]. unfold linspace.
  replace (S (S m) - 1)%nat with (S m) by lia.
  set (k := inject_Z (Z.of_nat (S m))).
  assert (Hk : 0 < k) by (unfold k, Qlt; simpl; lia).
  set (step := (stop - start) / k).
  assert (Hstep : 0 < step).
  { unfold step, Qdiv. apply Qmult_lt_0_compat; [lra|apply Qinv_lt_0_compat; exact Hk]. }
  assert (Hlast : k * step + start == stop) by (unfold step; field; intro E; lra).
  assert (Hpt : forall i, (i <= S m)%nat ->
            start <= inject_Z (Z.of_nat i) * step + start <= stop).
  { intros i Hi. assert (Hi0 : 0 <= inject_Z (Z.of_nat i)) by (unfold Qle; simpl; lia).
    assert (Hik : inject_Z (Z.of_nat i) <= k) by (unfold k, Qle; simpl; lia). nra. }
  split.
  - apply chain_map_seq. intros i _ Hi.
    replace (Nat.eqb i (S m)) with false by (symmetry; apply Nat.eqb_neq; lia).
    assert (Hs : inject_Z (Z.of_nat (S i)) * step + start
                 == inject_Z (Z.of_nat i) * step + start + step)
      by (rewrite inject_Z_succ; ring).
    destruct (Nat.eqb_spec (S i) (S m)) as [E|E].
    + rewrite <- Hlast. unfold k. rewrite <- E, Hs. lra.
    + rewrite Hs. lra.
  - apply Forall_forall. intros x Hx. apply in_map_iff in Hx. destruct Hx as (i & <- & Hi).
    apply in_seq in Hi. destruct (Nat.eqb_spec i (S m)); [lra|]. apply Hpt. lia.
Qed.

Lemma wq_theoretical_lt mu x y :
  0 < mu -> x < y -> y < 1 -> wq_theoretical mu x < wq_theoretical mu y.
Proof.
  intros Hmu Hxy Hy. unfold wq_theoretical.
  assert (Ex : x / (mu * (1 - x)) == / mu * (/ (1 - x) - 1)) by (field; split; intro E; lra).
  assert (Ey : y / (mu * (1 - y)) == / mu * (/ (1 - y) - 1)) by (field; split; intro E; lra).
  rewrite Ex, Ey. apply Qmult_lt_l; [apply Qinv_lt_0_compat; exact Hmu|].
  assert (/ (1 - x) < / (1 - y)); [|lra].
  apply (proj1 (Qinv_lt_contravar (1 - y) (1 - x) ltac:(lra) ltac:(lra))). lra.
Qed.

(** X15: for [mu > 0] and a grid [np.linspace(start, stop, num)] with
    [start < stop < 1] and [num >= 2], like [rho_curve] of line 28, the
    theoretical curve [rho_curve / (mu * (1 - rho_curve))] of line 29 is
    strictly increasing (it never divides by zero). *)
Theorem theoretical_wq_curve_increasing mu start stop num :
  0 < mu -> start < stop -> stop < 1 -> (2 <= num)%nat ->
  chain Qlt (map (wq_theoretical mu) (linspace start stop num)).
Proof.
  intros Hmu Hlt H1 Hn. destruct (linspace_props start stop num Hlt Hn) as [Hc Hb].
  apply (chain_map Qlt Qlt (fun x => start <= x <= stop)); [|exact Hb|exact Hc].
  intros x y _ [_ Hy] Hxy. apply wq_theoretical_lt; [exact Hmu|exact Hxy|lra].
Qed.



(** ** Concrete runs *)

Lemma table_nonneg tbl :
  Forall (fun q => 0 <= q) tbl -> forall n, 0 <= fst (table_exp tbl n).
Proof.
  intros H n. unfold table_exp. simpl. destruct (nth_in_or_default n tbl 1) as [Hin | ->].
  - rewrite Forall_forall in H. apply H. exact Hin.
  - unfold Qle. simpl. lia.
Qed.

Lemma sample_draws_nonneg : Forall (fun q => 0 <= q) sample_draws.
Proof. unfold sample_draws. repeat (apply Forall_cons; [unfold Qle; simpl; lia|]). apply Forall_nil. Qed.

(** C2 (code bug): with [arrival_rate = service_rate = simulation_time = 1]
    and a first interarrival time of 5, the only event processed is the
    arrival at time 5, after the horizon; the partial busy interval of
    line 101 is [1 - 5], so [server_utilization] is -4. *)
Theorem utilization_negative_after_overshoot :
  fst (simulate nat (table_exp [5; 1]) table_seed 1 1 1 10 (Some 42%Z) O) =
  inr {| total_customers := 1; completed_customers := 0;
         total_system_time := 0; total_queue_time := 0; server_busy_time := -4;
         average_system_time := 0; average_queue_time := 0; server_utilization := -4;
         average_system_length := -4; average_queue_length := 0;
         state_probabilities := [(0%Z, 5); (1%Z, -4)] |}.
Proof. vm_compute. reflexivity. Qed.

(** C4 (code bug): on the same run the arrival at time 5 credits 5 time
    units to count 0 (line 33) and the final update of line 78 credits
    [1 - 5] to count 1, so [state_probabilities] is [{0: 5, 1: -4}], with
    both values outside [0, 1]. *)
Theorem probabilities_outside_unit_interval :
  exists r g', simulate nat (table_exp [5; 1]) table_seed 1 1 1 10 (Some 42%Z) O = (inr r, g') /\
    state_probabilities r = [(0%Z, 5); (1%Z, -4)] /\
    1 < 5 /\ -4 < 0.
Proof.
  exists {| total_customers := 1; completed_customers := 0;
            total_system_time := 0; total_queue_time := 0; server_busy_time := -4;
            average_system_time := 0; average_queue_time := 0; server_utilization := -4;
            average_system_length := -4; average_queue_length := 0;
            state_probabilities := [(0%Z, 5); (1%Z, -4)] |}, 3%nat.
  split; [vm_compute; reflexivity|]. split; [reflexivity|]. split; reflexivity.
Qed.


(** ** Witnesses *)

Lemma ledger_and_probabilities_sum_witness :
  match simulate nat (table_exp sample_draws) table_seed 2 3 1 50 (Some 42%Z) O with
  | (inr r, _) => py_sum (dict_values (state_probabilities r)) == 1
  | (inl _, _) => False
  end.
Proof.
  destruct (simulate nat (table_exp sample_draws) table_seed 2 3 1 50 (Some 42%Z) O) as [[e|r] g'] eqn:E.
  - vm_compute in E. discriminate.
  - destruct (ledger_and_probabilities_sum nat (table_exp sample_draws) table_seed 2 3 1 50
                (Some 42%Z) O r g' E) as (st & g1 & _ & _ & _ & Hs).
    exact Hs.
Defined.

Lemma arrival_wins_ties_witness :
  loop_body nat (table_exp [1]) 1 1 tie_state = process_arrival nat (table_exp [1]) 1 1 tie_state.
Proof.
  destruct (arrival_wins_ties nat (table_exp [1]) 1 1 tie_state) as [H _].
  apply (H 1); reflexivity.
Defined.

Lemma population_changes_by_one_witness :
  (0 <= current_state (init_state 1))%Z /\
  match loop_body nat (table_exp [1]) 1 1 (init_state 1) O with
  | (inr st', _) => current_state st' = 1%Z
  | (inl _, _) => False
  end.
Proof.
  destruct (population_changes_by_one nat (table_exp [1]) 1 1 2) as (_ & H2 & H3).
  split; [apply H3; apply reach_init|].
  destruct (loop_body nat (table_exp [1]) 1 1 (init_state 1) O) as [[e|st'] g'] eqn:E.
  - vm_compute in E. discriminate.
  - rewrite (H2 _ _ _ _ E). reflexivity.
Defined.


Lemma completed_records_ordered_witness :
  match simulate_state nat (table_exp sample_draws) table_seed 2 3 1 50 (Some 42%Z) O with
  | (inr st, _) =>
      Forall (fun r => completed 1 r = true ->
                0 <= rec_start r - rec_arrival r /\
                rec_start r - rec_arrival r <= rec_departure r - rec_arrival r)
             (customer_stats st)
  | (inl _, _) => False
  end.
Proof.
  destruct (simulate_state nat (table_exp sample_draws) table_seed 2 3 1 50 (Some 42%Z) O)
    as [[e|st] g'] eqn:E.
  - vm_compute in E. discriminate.
  - apply Forall_forall. intros r Hin Hc.
    exact (completed_records_ordered nat (table_exp sample_draws) table_seed 2 3 1
             (table_nonneg _ sample_draws_nonneg) 50 (Some 42%Z) O st g' E r Hin Hc).
Defined.

Lemma completed_total_bound_witness :
  match simulate nat (table_exp sample_draws) table_seed 2 3 1 50 (Some 42%Z) O with
  | (inr r, _) => (completed_customers r <= total_customers r <= completed_customers r + 2)%nat
  | (inl _, _) => False
  end.
Proof.
  destruct (simulate nat (table_exp sample_draws) table_seed 2 3 1 50 (Some 42%Z) O) as [[e|r] g'] eqn:E.
  - vm_compute in E. discriminate.
  - exact (completed_total_bound nat (table_exp sample_draws) table_seed 2 3 1
             (table_nonneg _ sample_draws_nonneg) 50 (Some 42%Z) O r g' E).
Defined.


Lemma same_seed_same_result_witness :
  simulate nat (table_exp sample_draws) table_seed 2 3 1 50 (Some 42%Z) O =
  simulate nat (table_exp sample_draws) table_seed 2 3 1 50 (Some 42%Z) 7%nat /\
  simulate nat (table_exp sample_draws) table_seed 2 3 1 50 (Some (2 ^ 32)%Z) 7%nat =
  (inl ValueError, 7%nat).
Proof.
  split.
  - apply (proj1 (same_seed_same_result nat (table_exp sample_draws) table_seed 2 3 1 50 42%Z O 7%nat)).
    reflexivity.
  - apply (proj2 (proj2 (same_seed_same_result nat (table_exp sample_draws) table_seed 2 3 1 50
                           (2 ^ 32)%Z 7%nat 7%nat))).
    reflexivity.
Defined.

Lemma unit_draws_nonneg : Forall (fun q => 0 <= q) [1].
Proof. apply Forall_cons; [unfold Qle; simpl; lia|apply Forall_nil]. Qed.

Lemma event_clock_monotone_witness :
  match loop_body nat (table_exp sample_draws) 2 3 (init_state (1#4)) 1%nat with
  | (inr st', _) => current_time (init_state (1#4)) <= current_time st' /\
                    last_event_time st' = current_time st'
  | (inl _, _) => False
  end.
Proof.
  destruct (loop_body nat (table_exp sample_draws) 2 3 (init_state (1#4)) 1%nat)
    as [[e|st'] g'] eqn:E.
  - vm_compute in E. discriminate.
  - apply (event_clock_monotone nat (table_exp sample_draws) table_seed 2 3 1
             (table_nonneg _ sample_draws_nonneg) (init_state (1#4)) 1%nat st' g').
    + apply run_reach_init. unfold Qle. simpl. lia.
    + exact E.
Defined.

Lemma service_in_arrival_order_witness :
  match simulate_state nat (table_exp sample_draws) table_seed 4 1 2 50 (Some 42%Z) O with
  | (inr st, _) => chain Qle (map rec_arrival (customer_stats st) ++ queue st)
  | (inl _, _) => False
  end.
Proof.
  destruct (simulate_state nat (table_exp sample_draws) table_seed 4 1 2 50 (Some 42%Z) O)
    as [[e|st] g'] eqn:E.
  - vm_compute in E. discriminate.
  - exact (service_in_arrival_order nat (table_exp sample_draws) table_seed 4 1 2
             (table_nonneg _ sample_draws_nonneg) 50 (Some 42%Z) O st g' E).
Defined.

Lemma services_do_not_overlap_witness :
  match simulate_state nat (table_exp sample_draws) table_seed 4 1 2 50 (Some 42%Z) O with
  | (inr st, _) => chain (fun r1 r2 => rec_departure r1 <= rec_start r2) (customer_stats st)
  | (inl _, _) => False
  end.
Proof.
  destruct (simulate_state nat (table_exp sample_draws) table_seed 4 1 2 50 (Some 42%Z) O)
    as [[e|st] g'] eqn:E.
  - vm_compute in E. discriminate.
  - exact (services_do_not_overlap nat (table_exp sample_draws) table_seed 4 1 2
             (table_nonneg _ sample_draws_nonneg) 50 (Some 42%Z) O st g' E).
Defined.

Lemma ledger_nonneg_during_loop_witness :
  match loop_body nat (table_exp sample_draws) 2 3 (init_state (1#4)) 1%nat with
  | (inr st', _) => Forall (fun kv => 0 <= snd kv) (state_time st')
  | (inl _, _) => False
  end.
Proof.
  destruct (loop_body nat (table_exp sample_draws) 2 3 (init_state (1#4)) 1%nat)
    as [[e|st'] g'] eqn:E.
  - vm_compute in E. discriminate.
  - apply (ledger_nonneg_during_loop nat (table_exp sample_draws) table_seed 2 3 1
             (table_nonneg _ sample_draws_nonneg) st').
    apply (run_reach_step nat (table_exp sample_draws) 2 3 1 (init_state (1#4)) st' 1%nat g').
    + apply run_reach_init. unfold Qle. simpl. lia.
    + reflexivity.
    + exact E.
Defined.

Lemma probabilities_nonneg_except_final_count_witness :
  match simulate_state nat (table_exp sample_draws) table_seed 2 3 1 50 (Some 42%Z) O with
  | (inr st, g1) =>
      match reduce nat 1 st g1 with
      | (inr r, _) => 0 <= dict_get 0 (state_probabilities r) 0
      | (inl _, _) => False
      end
  | (inl _, _) => False
  end.
Proof.
  destruct (simulate_state nat (table_exp sample_draws) table_seed 2 3 1 50 (Some 42%Z) O)
    as [[e|st] g1] eqn:E.
  - vm_compute in E. discriminate.
  - destruct (reduce nat 1 st g1) as [[e|r] g'] eqn:E2.
    + vm_compute in E. injection E as <- <-. vm_compute in E2. discriminate.
    + pose proof E as E0. vm_compute in E0. injection E0 as Est Eg.
      apply (probabilities_nonneg_except_final_count nat (table_exp sample_draws) table_seed 2 3 1
               (table_nonneg _ sample_draws_nonneg) 50 (Some 42%Z) O st g1 r g' E E2).
      * unfold Qlt. simpl. lia.
      * rewrite <- Est. discriminate.
Defined.

Lemma probabilities_in_unit_interval_without_overshoot_witness :
  match simulate_state nat (table_exp [1]) table_seed 1 1 1 10 (Some 42%Z) O with
  | (inr st, g1) =>
      match reduce nat 1 st g1 with
      | (inr r, _) => Forall (fun p => 0 <= p <= 1) (dict_values (state_probabilities r))
      | (inl _, _) => False
      end
  | (inl _, _) => False
  end.
Proof.
  destruct (simulate_state nat (table_exp [1]) table_seed 1 1 1 10 (Some 42%Z) O)
    as [[e|st] g1] eqn:E.
  - vm_compute in E. discriminate.
  - destruct (reduce nat 1 st g1) as [[e|r] g'] eqn:E2.
    + vm_compute in E. injection E as <- <-. vm_compute in E2. discriminate.
    + pose proof E as E0. vm_compute in E0. injection E0 as Est Eg.
      apply (probabilities_in_unit_interval_without_overshoot nat (table_exp [1]) table_seed 1 1 1
               (table_nonneg _ unit_draws_nonneg) 10 (Some 42%Z) O st g1 r g' E E2).
      * unfold Qlt. simpl. lia.
      * rewrite <- Est. unfold Qle. simpl. lia.
Defined.

Lemma ledger_keys_contiguous_witness :
  match simulate_state nat (table_exp sample_draws) table_seed 4 1 2 50 (Some 42%Z) O with
  | (inr st, _) => exists n, map fst (state_time st) = map Z.of_nat (seq 0 n) /\
                             (0 <= current_state st < Z.of_nat n)%Z
  | (inl _, _) => False
  end.
Proof.
  destruct (simulate_state nat (table_exp sample_draws) table_seed 4 1 2 50 (Some 42%Z) O)
    as [[e|st] g'] eqn:E.
  - vm_compute in E. discriminate.
  - exact (ledger_keys_contiguous nat (table_exp sample_draws) table_seed 4 1 2
             (table_nonneg _ sample_draws_nonneg) 50 (Some 42%Z) O st g' E).
Defined.


Lemma utilization_in_unit_interval_without_overshoot_witness :
  match simulate_state nat (table_exp [1]) table_seed 1 1 1 10 (Some 42%Z) O with
  | (inr st, g1) =>
      match reduce nat 1 st g1 with
      | (inr r, _) => 0 <= server_utilization r <= 1
      | (inl _, _) => False
      end
  | (inl _, _) => False
  end.
Proof.
  destruct (simulate_state nat (table_exp [1]) table_seed 1 1 1 10 (Some 42%Z) O)
    as [[e|st] g1] eqn:E.
  - vm_compute in E. discriminate.
  - destruct (reduce nat 1 st g1) as [[e|r] g'] eqn:E2.
    + vm_compute in E. injection E as <- <-. vm_compute in E2. discriminate.
    + pose proof E as E0. vm_compute in E0. injection E0 as Est Eg.
      apply (utilization_in_unit_interval_without_overshoot nat (table_exp [1]) table_seed 1 1 1
               (table_nonneg _ unit_draws_nonneg) 10 (Some 42%Z) O st g1 r g' E E2).
      * unfold Qlt. simpl. lia.
      * rewrite <- Est. intros _. unfold Qle. simpl. lia.
Defined.

Lemma average_times_ordered_witness :
  match simulate nat (table_exp sample_draws) table_seed 4 1 2 50 (Some 42%Z) O with
  | (inr r, _) => 0 <= total_queue_time r <= total_system_time r /\
                  0 <= average_queue_time r <= average_system_time r
  | (inl _, _) => False
  end.
Proof.
  destruct (simulate nat (table_exp sample_draws) table_seed 4 1 2 50 (Some 42%Z) O)
    as [[e|r] g'] eqn:E.
  - vm_compute in E. discriminate.
  - exact (average_times_ordered nat (table_exp sample_draws) table_seed 4 1 2
             (table_nonneg _ sample_draws_nonneg) 50 (Some 42%Z) O r g' E).
Defined.

Lemma length_gap_is_busy_probability_witness :
  match simulate nat (table_exp sample_draws) table_seed 4 1 2 50 (Some 42%Z) O with
  | (inr r, _) => average_system_length r - average_queue_length r
                  == 1 - dict_get 0 (state_probabilities r) 0
  | (inl _, _) => False
  end.
Proof.
  destruct (simulate nat (table_exp sample_draws) table_seed 4 1 2 50 (Some 42%Z) O)
    as [[e|r] g'] eqn:E.
  - vm_compute in E. discriminate.
  - exact (length_gap_is_busy_probability nat (table_exp sample_draws) table_seed 4 1 2
             (table_nonneg _ sample_draws_nonneg) 50 (Some 42%Z) O r g' E).
Defined.

Lemma negative_horizon_result_witness :
  match simulate nat (table_exp [1]) table_seed 1 1 (-1) 5 (Some 42%Z) O with
  | (inr r, _) => total_customers r = 0%nat /\ server_utilization r == 0 /\
                  dict_get 0 (state_probabilities r) 0 == 1
  | (inl _, _) => False
  end.
Proof.
  destruct (simulate nat (table_exp [1]) table_seed 1 1 (-1) 5 (Some 42%Z) O)
    as [[e|r] g'] eqn:E.
  - vm_compute in E. discriminate.
  - destruct (negative_horizon_result nat (table_exp [1]) table_seed 1 1 (-1) 5 (Some 42%Z) O r g')
      as (H1 & _ & _ & H4 & _ & _ & _ & H8).
    + unfold Qlt. simpl. lia.
    + exact E.
    + split; [exact H1|split; [exact H4|exact H8]].
Defined.

Lemma printed_distribution_is_state_probabilities_witness :
  match simulate nat (table_exp sample_draws) table_seed 4 1 2 50 (Some 42%Z) O with
  | (inr r, g1) => run_mm1_simulation nat (table_exp sample_draws) table_seed 4 1 2 50 (Some 42%Z) O
                   = (inr (r, state_probabilities r), g1)
  | (inl _, _) => False
  end.
Proof.
  destruct (simulate nat (table_exp sample_draws) table_seed 4 1 2 50 (Some 42%Z) O)
    as [[e|r] g1] eqn:E.
  - vm_compute in E. discriminate.
  - apply (proj1 (printed_distribution_is_state_probabilities nat (table_exp sample_draws) table_seed
             4 1 2 (table_nonneg _ sample_draws_nonneg) 50 (Some 42%Z) O) r g1 E).
    intro H. discriminate.
Defined.


Lemma theoretical_wq_curve_increasing_witness :
  chain Qlt (map (wq_theoretical 12) (linspace (1#100) (99#100) 100)).
Proof.
  apply theoretical_wq_curve_increasing; unfold Qlt; simpl; lia.
Defined.
